(** * nes: plugin registration, configuration schema and handshake endpoint

    A shallow embedding of [lib/index.js]: the default settings, the
    configuration schema ([internals.schema]), [exports.register] with its
    [onPreStart] / [onPreStop] hooks, and the authentication endpoint
    ([internals.auth]) with its route handler.

    The modules the file loads with [require] (Hoek, Joi, Items, Iron,
    Cryptiles) are libraries: the fragment of each that [lib/index.js] calls
    is modelled below, next to the code that uses it. *)

From Stdlib Require Import QArith.
From stdpp Require Import gmap strings list fin_maps.

Close Scope Q_scope.
#[local] Set Warnings "-register-all".

(** ** JavaScript values *)

(** The values a configuration, a request or a reply can hold.  Numbers are
    the finite ones, as rationals; an object is a finite map from property
    names to values; a missing property reads as [undefined]. *)
Inductive value : Type :=
  | VUndefined
  | VNull
  | VBool (b : bool)
  | VNum (n : Q)
  | VStr (s : string)
  | VFunc (name : string)
  | VBuffer (bytes : string)
  | VError (message : string)
  | VArr (items : list value)
  | VObj (props : gmap string value).

(** [o[k]] *)
Definition get (o : value) (k : string) : value :=
  match o with
  | VObj props => default VUndefined (props !! k)
  | _ => VUndefined
  end.

(** The own property [k] of [o], if it has one. *)
Definition own (o : value) (k : string) : option value :=
  match o with
  | VObj props => props !! k
  | _ => None
  end.

(** [o[k] = v] *)
Definition set (o : value) (k : string) (v : value) : value :=
  match o with
  | VObj props => VObj (<[k := v]> props)
  | _ => o
  end.

(** An object literal [{ k1: v1, ..., kn: vn }]. *)
Definition obj (l : list (string * value)) : value := VObj (list_to_map l).

(** JavaScript truthiness ([!x] is its negation). *)
Definition truthy (v : value) : bool :=
  match v with
  | VUndefined | VNull => false
  | VBool b => b
  | VNum n => negb (Qeq_bool n 0)
  | VStr s => negb (String.eqb s "")
  | _ => true
  end.

(** [a === b] where one side is a primitive: objects, arrays, functions and
    buffers are compared by identity and never equal a primitive. *)
Definition strict_eq (a b : value) : bool :=
  match a, b with
  | VUndefined, VUndefined => true
  | VNull, VNull => true
  | VBool x, VBool y => Bool.eqb x y
  | VNum x, VNum y => Qeq_bool x y
  | VStr x, VStr y => String.eqb x y
  | _, _ => false
  end.

(** [typeof v === 'object' && v !== null] *)
Definition is_object_like (v : value) : bool :=
  match v with
  | VObj _ | VArr _ | VBuffer _ | VError _ => true
  | _ => false
  end.

(** [Array.isArray(v)] *)
Definition isArray (v : value) : bool :=
  match v with VArr _ => true | _ => false end.

(** [v === null || v === undefined] *)
Definition nullish (v : value) : bool :=
  match v with VUndefined | VNull => true | _ => false end.

(** ** Hoek *)

Module Hoek.

(** [Hoek.clone]: values are immutable here, so a deep copy is the value. *)
Definition clone (v : value) : value := v.

(** One property of [Hoek.merge(target, source, false, false)]: what
    [target[key]] holds after the loop body ran for [key], [None] when the
    property is absent from both. *)
Definition merge_prop (merge : value -> value -> value)
    (t s : option value) : option value :=
  match s with
  | None => t
  | Some sv =>
      if truthy sv && is_object_like sv then
        match t with
        | Some tv =>
            if negb (truthy tv) || negb (is_object_like tv)
               || negb (Bool.eqb (isArray tv) (isArray sv))
               || match sv with VBuffer _ => true | _ => false end
            then Some (clone sv)
            else Some (merge tv sv)
        | None => Some (clone sv)
        end
      else if negb (nullish sv) then Some sv
      else t
  end.

(** [Hoek.merge(target, source, isNullOverride = false, isMergeArrays = false)]:
    an array source replaces the content of an array target; an object
    source is merged property by property. *)
Fixpoint merge (target source : value) {struct target} : value :=
  match source with
  | VArr items => VArr (map clone items)
  | VObj sprops =>
      match target with
      | VObj tprops => VObj (base.merge (merge_prop merge) tprops sprops)
      | _ => target
      end
  | _ => target
  end.

(** [Hoek.applyToDefaults(defaults, options)] for an object [defaults]:
    [None] is a failed assertion (options neither falsy, [true] nor an
    object; an array cannot be merged onto an object). *)
Definition applyToDefaults (defaults options : value) : option value :=
  if negb (truthy options) then Some VNull
  else match options with
       | VBool true => Some (clone defaults)
       | VObj _ => Some (merge (clone defaults) options)
       | _ => None
       end.

End Hoek.

(** ** Listeners

    [lib/listener.js] is not part of this development: a listener is what
    [lib/index.js] reads and writes of it. *)

(** A connection of the host server. *)
Inductive connection : Type := Connection (label : nat).

(** The arguments of the constructor and the [_stopped] flag. *)
Record Listener : Type := {
  listener_connection : connection;
  listener_settings : value;
  _stopped : bool
}.

Definition set_stopped (b : bool) (l : Listener) : Listener :=
  {| listener_connection := listener_connection l;
     listener_settings := listener_settings l;
     _stopped := b |}.

(** ** Primitives of the loaded modules and of the language

    What [lib/index.js] and the schema need from outside and that has no
    definition of its own here: random strings, sealing, the parsers that Joi
    applies to a string when it converts it, the integrality test behind
    [Joi.number().integer()], the lowercase form of a string, and the
    constructor of listeners. *)

Inductive seal_result : Type :=
  | SealFailed (err : value)
  | Sealed (sealed : string).

Class Modules : Type := {
  (** [Cryptiles.randomString(size)]: the string returned by the [n]-th
      call made since the process started. *)
  Cryptiles_randomString : nat -> nat -> string;
  (** [Iron.seal(object, password, options, callback)]: what the callback
      receives. *)
  Iron_seal : value -> value -> value -> seal_result;
  (** [Iron.defaults] *)
  Iron_defaults : value;
  (** The finite number Joi reads in a string, if any ([parseFloat]). *)
  number_of_string : string -> option Q;
  (** [JSON.parse(s)] when it does not throw. *)
  JSON_parse : string -> option value;
  (** The boolean Joi reads in a string, if any. *)
  boolean_of_string : string -> option bool;
  (** [Number.isSafeInteger(n)], the test of [Joi.number().integer()] *)
  isInteger : Q -> bool;
  (** [String.prototype.toLowerCase] *)
  toLowerCase : string -> string;
  (** [new Listener(connection, settings)] *)
  Listener_new : connection -> value -> Listener
}.

(** Whether a number is an integer. *)
Definition is_integral (n : Q) : bool :=
  (Qnum n mod Zpos (Qden n) =? 0)%Z.

(** [Number.isSafeInteger(n)]: an integer of magnitude at most [2^53 - 1]. *)
Definition isSafeInteger (n : Q) : bool :=
  is_integral n
  && Qle_bool (inject_Z (- 9007199254740991)) n
  && Qle_bool n (inject_Z 9007199254740991).

(** [a < b] on numbers. *)
Definition Qlt_bool (a b : Q) : bool := negb (Qle_bool b a).

(** ** Joi *)

Module Joi.

Inductive presence : Type := optional | required_ | ignore.

(** [Joi.ref(key)] *)
Inductive reference : Type := ref (key : string).

Inductive number_rule : Type :=
  | rule_integer
  | rule_min (limit : Q)
  | rule_less (r : reference).

(** A schema: the flags every type has, and the type with its own
    settings. *)
Inductive schema : Type :=
  | Schema (type_ : base) (valids invalids : list value)
           (allowOnly : bool) (pres : presence)
with base : Type :=
  | t_any
  | t_func
  | t_string (lower : bool)
  | t_number (rules : list number_rule)
  | t_boolean
  | t_binary
  | t_object (children : option (list (string * schema)))
  | t_array (inclusions : list schema) (is_single : bool) (min_length : option nat)
  | t_alternatives (matches : list schema)
  | t_when (r : reference) (is_ : schema) (otherwise : schema) (baseType : schema).

(** Membership in a set of allowed or denied values. *)
Definition has (vs : list value) (v : value) : bool :=
  existsb (strict_eq v) vs.

Definition without (vs gone : list value) : list value :=
  List.filter (fun v => negb (has gone v)) vs.

(** *** Building schemas *)

Definition any : schema := Schema t_any [] [] false optional.
Definition func : schema := Schema t_func [] [] false optional.
Definition number : schema := Schema (t_number []) [] [] false optional.
Definition boolean : schema := Schema t_boolean [] [] false optional.
Definition binary : schema := Schema t_binary [] [] false optional.
Definition object : schema := Schema (t_object None) [] [] false optional.
Definition array : schema := Schema (t_array [] false None) [] [] false optional.

(** [Joi.object({ ... })], also what a plain object literal in a schema is
    cast to. *)
Definition keys (children : list (string * schema)) : schema :=
  Schema (t_object (Some children)) [] [] false optional.

(** [Joi.alternatives([ ... ])], also what an array literal in a schema is
    cast to. *)
Definition alternatives (matches : list schema) : schema :=
  Schema (t_alternatives matches) [] [] false optional.

Definition allow (vs : list value) (s : schema) : schema :=
  match s with
  | Schema t valids invalids only p =>
      Schema t (valids ++ vs) (without invalids vs) only p
  end.

Definition valid (vs : list value) (s : schema) : schema :=
  match allow vs s with
  | Schema t valids invalids _ p => Schema t valids invalids true p
  end.

Definition required (s : schema) : schema :=
  match s with
  | Schema t valids invalids only _ => Schema t valids invalids only required_
  end.

Definition integer (s : schema) : schema :=
  match s with
  | Schema (t_number rules) v i o p => Schema (t_number (rules ++ [rule_integer])) v i o p
  | _ => s
  end.

(** [number.min(limit)] and [array.min(limit)] *)
Definition min (limit : nat) (s : schema) : schema :=
  match s with
  | Schema (t_number rules) v i o p =>
      Schema (t_number (rules ++ [rule_min (inject_Z (Z.of_nat limit))])) v i o p
  | Schema (t_array incl sg _) v i o p => Schema (t_array incl sg (Some limit)) v i o p
  | _ => s
  end.

Definition less (r : reference) (s : schema) : schema :=
  match s with
  | Schema (t_number rules) v i o p => Schema (t_number (rules ++ [rule_less r])) v i o p
  | _ => s
  end.

Definition lowercase (s : schema) : schema :=
  match s with
  | Schema (t_string _) v i o p => Schema (t_string true) v i o p
  | _ => s
  end.

Definition items (incl : list schema) (s : schema) : schema :=
  match s with
  | Schema (t_array old sg m) v i o p => Schema (t_array (old ++ incl) sg m) v i o p
  | _ => s
  end.

Definition single (s : schema) : schema :=
  match s with
  | Schema (t_array incl _ m) v i o p => Schema (t_array incl true m) v i o p
  | _ => s
  end.

(** [a.concat(b)] where [b] is of type any or of the type of [a]: the
    allowed and denied values and the flags of [b] are added to [a]. *)
Definition concat (a b : schema) : schema :=
  match a, b with
  | Schema ta va ia oa pa, Schema tb vb ib ob pb =>
      Schema (match ta with t_any => tb | _ => ta end)
             (without va ib ++ vb) (without ia vb ++ ib)
             (oa || ob)
             (match pb with optional => pa | _ => pb end)
  end.

(** [s.when(ref, { is: v, otherwise: o })] with a literal [v]: the literal
    is cast to [Joi.valid(v).required()]. *)
Definition when (r : reference) (is_ : value) (otherwise : schema) (s : schema) : schema :=
  Schema (t_when r (required (valid [is_] any)) (concat s otherwise) s)
         [] [] false ignore.

(** *** Validation, with the default options ([convert: true],
    [allowUnknown: false], [presence: 'optional'])

    [validate s parent v] is [None] when [v] is rejected and the converted
    value otherwise; [parent] is the object [v] is a property of, where
    references are looked up. *)

(** The result of the first function that has one. *)
Fixpoint first_some {A B : Type} (f : A -> option B) (l : list A) : option B :=
  match l with
  | [] => None
  | x :: rest =>
      match f x with
      | Some y => Some y
      | None => first_some f rest
      end
  end.

(** [target[key] = result.value] unless the result is [undefined]. *)
Definition store (target : value) (k : String.string) (r : value) : value :=
  match r with
  | VUndefined => target
  | _ => set target k r
  end.

(** The children of an object schema, validated in turn against a copy of
    the object that receives the converted values. *)
Fixpoint each_child (f : schema -> value -> value -> option value)
    (children : list (String.string * schema)) (target : value) : option value :=
  match children with
  | [] => Some target
  | (k, s) :: rest =>
      match f s target (get target k) with
      | None => None
      | Some r => each_child f rest (store target k r)
      end
  end.

(** The items of an array: none is [undefined], and each matches one of
    the inclusions when there are any. *)
Fixpoint each_item (f : schema -> value -> option value)
    (inclusions : list schema) (l : list value) : option (list value) :=
  match l with
  | [] => Some []
  | x :: rest =>
      match x with
      | VUndefined => None
      | _ =>
          match (match inclusions with
                 | [] => Some x
                 | _ => first_some (fun s => f s x) inclusions
                 end) with
          | None => None
          | Some y => cons y <$> each_item f inclusions rest
          end
      end
  end.

(** Own enumerable keys outside [known]; the keys of a buffer are its
    indices. *)
Definition has_unknown_keys (v : value) (known : list String.string) : bool :=
  match v with
  | VObj props => negb (bool_decide (dom props ⊆ list_to_set known))
  | VBuffer bytes => negb (String.eqb bytes "")
  | _ => false
  end.

Section Validation.
Context `{M : Modules}.

(** A string where an object or an array is expected is parsed as JSON;
    it stays as it is when that fails. *)
Definition parsed (v : value) : value :=
  match v with
  | VStr s => default v (JSON_parse s)
  | _ => v
  end.

(** Conversion to the type of the schema, [None] when the value is not
    of that type. *)
Definition convert (t : base) (v : value) : option value :=
  match t with
  | t_any | t_alternatives _ | t_when _ _ _ _ => Some v
  | t_func => match v with VFunc _ => Some v | _ => None end
  | t_string lower =>
      match v with
      | VStr s => Some (VStr (if lower then toLowerCase s else s))
      | _ => None
      end
  | t_number _ =>
      match v with
      | VNum _ => Some v
      | VStr s => VNum <$> number_of_string s
      | _ => None
      end
  | t_boolean =>
      match v with
      | VBool _ => Some v
      | VStr s => VBool <$> boolean_of_string s
      | _ => None
      end
  | t_binary =>
      match v with
      | VBuffer _ => Some v
      | VStr s => Some (VBuffer s)
      | _ => None
      end
  | t_object _ =>
      let v' := parsed v in
      if is_object_like v' && negb (isArray v') then Some v' else None
  | t_array _ is_single _ =>
      match parsed v with
      | VArr l => Some (VArr l)
      | v' => if is_single then Some (VArr [v']) else None
      end
  end.

Definition check_number (parent : value) (n : Q) (r : number_rule) : bool :=
  match r with
  | rule_integer => isInteger n
  | rule_min limit => Qle_bool limit n
  | rule_less (ref key) =>
      match get parent key with
      | VNum limit => Qlt_bool n limit
      | _ => false
      end
  end.

Fixpoint validate (s : schema) (parent v : value) {struct s} : option value :=
  match s with
  | Schema t valids invalids only p =>
      match p, v with
      | optional, VUndefined => Some VUndefined
      | required_, VUndefined => None
      | _, _ =>
          if has valids v then Some v
          else if has invalids v then None
          else match convert t v with
               | None => None
               | Some v1 =>
                   if has valids v1 then Some v1
                   else if has invalids v1 then None
                   else if only then None
                   else check t parent v1
               end
      end
  end
with check (t : base) (parent v : value) {struct t} : option value :=
  match t with
  | t_any | t_func | t_string _ | t_boolean | t_binary => Some v
  | t_number rules =>
      match v with
      | VNum n => if forallb (check_number parent n) rules then Some v else None
      | _ => None
      end
  | t_object None => Some v
  | t_object (Some children) =>
      match each_child validate children v with
      | None => None
      | Some target =>
          if has_unknown_keys v (map fst children) then None else Some target
      end
  | t_array inclusions _ min_length =>
      match v with
      | VArr l =>
          match each_item (fun s x => validate s parent x) inclusions l with
          | None => None
          | Some l' =>
              match min_length with
              | Some limit => if (limit <=? length l')%nat then Some (VArr l') else None
              | None => Some (VArr l')
              end
          end
      | _ => None
      end
  | t_alternatives matches => first_some (fun s => validate s parent v) matches
  | t_when (ref key) is_ otherwise baseType =>
      match validate is_ parent (get parent key) with
      | Some _ => validate baseType parent v
      | None => validate otherwise parent v
      end
  end.

(** [Joi.assert(value, schema, message)] throws when validation fails. *)
Definition assert (v : value) (s : schema) : bool :=
  match validate s VUndefined v with
  | Some _ => true
  | None => false
  end.

End Validation.

(** [Joi.string()]: the empty string is denied unless allowed. *)
Definition string : schema := Schema (t_string false) [] [VStr ""] false optional.

End Joi.

(** [x |> f] reads as the method call [x.f(...)]. *)
Notation "x |> f" := (f x) (at level 45, left associativity, only parsing).

(** A number literal. *)
Definition num (z : Z) : value := VNum (inject_Z z).

(** ** The host: requests, replies, routes, hooks *)

(** [request.auth] as the host filled it in, and [request.plugins]. *)
Record request_auth : Type := {
  isAuthenticated : bool;
  credentials : value;
  artifacts : value
}.

Record request : Type := {
  auth : request_auth;
  plugins : value
}.

(** What a handler does, in order: [reply(response)], [.state(name, value)]
    on the response, and a call of [Iron.seal]. *)
Inductive effect : Type :=
  | Reply (response : value)
  | State (name : value) (v : value)
  | Seal (object password options : value).

Record route_config : Type := {
  id : value;
  isInternal : bool;
  route_auth : value;
  handler : request -> list effect
}.

Record route : Type := {
  method : string;
  path : value;
  config : route_config
}.

(** A lifecycle hook [function (srv, extNext)], as the calls it makes on the
    array [listeners] it closes over: an assignment to
    [listeners[i]._stopped], a call [listeners[i]._close(next)] whose
    continuation receives what the listener passes to [next], and the final
    [extNext(err)]. *)
Inductive hook : Type :=
  | extNext (err : value)
  | assign_stopped (i : nat) (b : bool) (k : hook)
  | _close (i : nat) (next : value -> hook).

Record server : Type := {
  connections : list connection;
  states : list (value * value);
  routes : list route;
  exts : list (string * hook);
  decorations : list (string * string)
}.

Module Server.

(** [server.state(name, options)] *)
Definition state (name options : value) (srv : server) : server :=
  {| connections := connections srv;
     states := states srv ++ [(name, options)];
     routes := routes srv;
     exts := exts srv;
     decorations := decorations srv |}.

(** [server.route(r)] *)
Definition route (r : route) (srv : server) : server :=
  {| connections := connections srv;
     states := states srv;
     routes := routes srv ++ [r];
     exts := exts srv;
     decorations := decorations srv |}.

(** [server.ext(event, method)] *)
Definition ext (event : string) (h : hook) (srv : server) : server :=
  {| connections := connections srv;
     states := states srv;
     routes := routes srv;
     exts := exts srv ++ [(event, h)];
     decorations := decorations srv |}.

(** [server.decorate(type, property, method)] *)
Definition decorate (type property : string) (srv : server) : server :=
  {| connections := connections srv;
     states := states srv;
     routes := routes srv;
     exts := exts srv;
     decorations := decorations srv ++ [(type, property)] |}.

End Server.

(** ** Items *)

Module Items.

(** [Items.serial(array, method, callback)]: [method(array[i], done)] for
    each item in turn; a truthy argument to [done] ends the iteration with
    [callback(err)], and after the last item [callback()] is called. *)
Fixpoint serial {A : Type} (array : list A)
    (method : A -> (value -> hook) -> hook) (callback : value -> hook) : hook :=
  match array with
  | [] => callback VUndefined
  | item :: rest =>
      method item
        (fun err => if truthy err then callback err
                    else serial rest method callback)
  end.

End Items.

(** ** Running a hook

    What a listener does when [_close(next)] is called on it is not in
    [lib/index.js]: [closing i l] gives the state the [i]-th listener is left
    in and whether, and with what argument, it calls [next]. *)

Inductive close_outcome : Type :=
  | calls_next (err : value)
  | never_calls_next.

Inductive event : Type :=
  | ev_assign_stopped (i : nat) (b : bool)
  | ev_close (i : nat)
  | ev_next (i : nat) (err : value)
  | ev_extNext (err : value)
  | ev_TypeError.

Section Run.

Variable closing : nat -> Listener -> Listener * close_outcome.

(** The calls made, in order, and the listeners afterwards.  Reading a
    property of [listeners[i]] for an [i] out of range throws. *)
Fixpoint run (h : hook) (listeners : list Listener) : list event * list Listener :=
  match h with
  | extNext err => ([ev_extNext err], listeners)
  | assign_stopped i b k =>
      match listeners !! i with
      | None => ([ev_TypeError], listeners)
      | Some l =>
          let '(trace, after) := run k (<[i := set_stopped b l]> listeners) in
          (ev_assign_stopped i b :: trace, after)
      end
  | _close i next =>
      match listeners !! i with
      | None => ([ev_TypeError], listeners)
      | Some l =>
          let '(l', outcome) := closing i l in
          match outcome with
          | calls_next err =>
              let '(trace, after) := run (next err) (<[i := l']> listeners) in
              (ev_close i :: ev_next i err :: trace, after)
          | never_calls_next => ([ev_close i], <[i := l']> listeners)
          end
      end
  end.

End Run.

(** ** The authentication endpoint *)

Section Endpoint.

Context `{M : Modules}.

(** The handler of the authentication endpoint, closed over [config]. *)
Definition auth_handler (config : value) (request : request) : list effect :=
  if negb (isAuthenticated (auth request)) then
    [Reply (obj [("status", VStr "unauthenticated")])]
  else
    let credentials :=
      obj [("credentials", credentials (auth request));
           ("artifacts", artifacts (auth request))] in
    if strict_eq (get config "type") (VStr "direct") then
      [Reply credentials]
    else
      let result := obj [("status", VStr "authenticated")] in
      if strict_eq (get config "type") (VStr "cookie") then
        [Reply result; State (get config "cookie") credentials]
      else
        let options :=
          if truthy (get config "iron") then get config "iron" else Iron_defaults in
        Seal credentials (get config "password") options ::
        match Iron_seal credentials (get config "password") options with
        | SealFailed err => [Reply err]
        | Sealed sealed => [Reply (set result "token" (VStr sealed))]
        end.

(** [cookieOptions] in [internals.auth] *)
Definition cookieOptions (config : value) : value :=
  obj [("isSecure", get config "isSecure");
       ("isHttpOnly", get config "isHttpOnly");
       ("path", get config "path");
       ("domain", get config "domain");
       ("ttl", get config "ttl");
       ("encoding", VStr "iron");
       ("password", get config "password");
       ("iron", get config "iron")].

(** The route of the authentication endpoint. *)
Definition auth_route (config : value) : route :=
  {| method := if strict_eq (get config "type") (VStr "direct") then "auth" else "GET";
     path := get config "endpoint";
     config := {| id := get config "id";
                  isInternal := strict_eq (get config "type") (VStr "direct");
                  route_auth := get config "route";
                  handler := auth_handler config |} |}.

End Endpoint.

(** ** Declare internals *)

Module internals.

Definition defaults : value :=
  obj [
    ("auth", obj [
       ("endpoint", VStr "/nes/auth");
       ("id", VStr "nes.auth");
       ("type", VStr "direct");
       ("cookie", VStr "nes");
       ("isSecure", VBool true);
       ("isHttpOnly", VBool true);
       ("path", VStr "/");
       ("index", VBool false);
       ("timeout", num 5000);
       ("maxConnectionsPerUser", VBool false)
    ]);
    ("headers", VNull);
    ("payload", obj [
       ("maxChunkChars", VBool false)
    ]);
    ("heartbeat", obj [
       ("interval", num 15000);
       ("timeout", num 5000)
    ]);
    ("maxConnections", VBool false)
  ].

Definition auth_schema : Joi.schema :=
  Joi.keys [
    ("endpoint", Joi.string |> Joi.required);
    ("id", Joi.string);
    ("type", Joi.any |> Joi.valid [VStr "cookie"; VStr "token"; VStr "direct"] |> Joi.required);
    ("route", Joi.alternatives [
       Joi.object;
       Joi.string
    ]);
    ("cookie", Joi.string |> Joi.required);
    ("isSecure", Joi.boolean);
    ("isHttpOnly", Joi.boolean);
    ("path", Joi.string |> Joi.allow [VNull]);
    ("domain", Joi.string |> Joi.allow [VNull]);
    ("ttl", Joi.number |> Joi.allow [VNull]);
    ("iron", Joi.object);
    ("password", Joi.alternatives [
       Joi.string;
       Joi.binary;
       Joi.object
    ]);
    ("index", Joi.boolean);
    ("timeout", Joi.number |> Joi.integer |> Joi.min 1 |> Joi.allow [VBool false]);
    ("maxConnectionsPerUser",
       Joi.number |> Joi.integer |> Joi.min 1 |> Joi.allow [VBool false]
                  |> Joi.when (Joi.ref "index") (VBool true)
                              (Joi.any |> Joi.valid [VBool false]))
  ]
    |> Joi.allow [VBool false]
    |> Joi.required.

Definition heartbeat_schema : Joi.schema :=
  Joi.keys [
    ("interval", Joi.number |> Joi.integer |> Joi.min 1 |> Joi.required);
    ("timeout", Joi.number |> Joi.integer |> Joi.min 1
                           |> Joi.less (Joi.ref "interval") |> Joi.required)
  ]
    |> Joi.allow [VBool false].

Definition schema : Joi.schema :=
  Joi.keys [
    ("onConnection", Joi.func);
    ("onDisconnection", Joi.func);
    ("onMessage", Joi.func);
    ("auth", auth_schema);
    ("headers", Joi.array |> Joi.items [Joi.string |> Joi.lowercase] |> Joi.min 1
                          |> Joi.allow [VStr "*"; VNull]);
    ("payload", Joi.keys [
       ("maxChunkChars", Joi.number |> Joi.integer |> Joi.min 1 |> Joi.allow [VBool false])
    ]);
    ("heartbeat", heartbeat_schema);
    ("maxConnections", Joi.number |> Joi.integer |> Joi.min 1 |> Joi.allow [VBool false]);
    ("origin", Joi.array |> Joi.items [Joi.string] |> Joi.single |> Joi.min 1)
  ].

Section Auth.

Context `{M : Modules}.

(** [internals.auth(server, settings)].  [config] is [settings.auth]
    itself, so the generated password is stored in the settings. *)
Definition auth (srv : server) (settings : value) (calls : nat)
    : server * value * nat :=
  let config := get settings "auth" in
  if negb (truthy config) then (srv, settings, calls)
  else
    let '(config, calls) :=
      if negb (strict_eq (get config "type") (VStr "direct"))
         && negb (truthy (get config "password"))
      then (set config "password" (VStr (Cryptiles_randomString calls 32)), S calls)
      else (config, calls) in
    let srv :=
      if strict_eq (get config "type") (VStr "cookie")
      then Server.state (get config "cookie") (cookieOptions config) srv
      else srv in
    let srv := Server.route (auth_route config) srv in
    (srv, set settings "auth" config, calls).

(** [internals.socket(request)] *)
Definition socket (request : request) : value :=
  if truthy (get (plugins request) "nes")
  then get (get (plugins request) "nes") "socket"
  else VNull.

End Auth.

End internals.

(** ** Plugin registration *)

Record plugin : Type := {
  plugin_server : server;
  settings : value;
  listeners : list Listener;
  (** calls of [Cryptiles.randomString] made so far *)
  random_calls : nat
}.

(** [register] either throws or calls [next()]. *)
Inductive registered : Type :=
  | Throws (message : string)
  | Next (p : plugin).

(** [for (let i = first; i < first + count; ++i) { body(i) }] followed by
    [after], in a hook. *)
Fixpoint for_ (first count : nat) (body : nat -> hook -> hook) (after : hook) : hook :=
  match count with
  | O => after
  | S count' => body first (for_ (S first) count' body after)
  end.

Section Plugin.

Context `{M : Modules}.

(** [field.toLowerCase()] for each field; [None] when a field has no such
    method. *)
Fixpoint lower_fields (fields : list value) : option (list value) :=
  match fields with
  | [] => Some []
  | VStr field :: rest => cons (VStr (toLowerCase field)) <$> lower_fields rest
  | _ => None
  end.

Definition onPreStart (listeners_length : nat) : hook :=
  for_ 0 listeners_length (fun i k => assign_stopped i false k)
    (extNext VUndefined).

Definition onPreStop (listeners_length : nat) : hook :=
  Items.serial (seq 0 listeners_length)
    (fun listener nextListener => _close listener nextListener)
    extNext.

(** [if (Array.isArray(settings.headers)) settings.headers =
    settings.headers.map((field) => field.toLowerCase())]; [None] when a
    field has no [toLowerCase]. *)
Definition lowered (settings : value) : option value :=
  match get settings "headers" with
  | VArr fields => set settings "headers" <$> (VArr <$> lower_fields fields)
  | _ => Some settings
  end.

(** The hooks and decorations [register] adds for [n] listeners. *)
Definition decorated (n : nat) (srv : server) : server :=
  srv |> Server.ext "onPreStart" (onPreStart n)
      |> Server.ext "onPreStop" (onPreStop n)
      |> Server.decorate "server" "broadcast"
      |> Server.decorate "server" "subscription"
      |> Server.decorate "server" "publish"
      |> Server.decorate "server" "eachSocket"
      |> Server.decorate "request" "socket".

(** [exports.register(server, options, next)], [calls] being the number
    of random strings drawn before. *)
Definition register (srv : server) (options : value) (calls : nat) : registered :=
  match Hoek.applyToDefaults internals.defaults options with
  | None => Throws "Invalid options value: must be true, falsy or an object"
  | Some settings =>
      if negb (Joi.assert settings internals.schema) then
        Throws "Invalid nes configuration"
      else
        match lowered settings with
        | None => Throws "field.toLowerCase is not a function"
        | Some settings =>
            let '(srv, settings, calls) := internals.auth srv settings calls in
            let listeners :=
              map (fun c => Listener_new c settings) (connections srv) in
            Next {| plugin_server := decorated (length listeners) srv;
                    settings := settings;
                    listeners := listeners;
                    random_calls := calls |}
        end
  end.

End Plugin.

(** ** Vocabulary of the properties *)

Section Vocabulary.

Context `{M : Modules}.

(** [{ credentials: request.auth.credentials, artifacts: request.auth.artifacts }] *)
Definition envelope (request : request) : value :=
  obj [("credentials", credentials (auth request));
       ("artifacts", artifacts (auth request))].

(** [config.iron || Iron.defaults] *)
Definition seal_options (cfg : value) : value :=
  if truthy (get cfg "iron") then get cfg "iron" else Iron_defaults.

(** A schema whose verdict does not depend on the enclosing object. *)
Definition independent (s : Joi.schema) : Prop :=
  ∀ T T' x, Joi.validate s T x = Joi.validate s T' x.

(** [options.auth.maxConnectionsPerUser = n] *)
Definition with_maxConnectionsPerUser (n : Q) (options : value) : value :=
  set options "auth" (set (get options "auth") "maxConnectionsPerUser" (VNum n)).

End Vocabulary.

Section Traces.

Variable closing : nat -> Listener -> Listener * close_outcome.

(** What the [i]-th listener does when closed in the state it has in
    [current]. *)
Definition outcome_at (current : list Listener) (i : nat) : close_outcome :=
  match current !! i with
  | Some l => (closing i l).2
  | None => never_calls_next
  end.


(** The number of listeners, from [first] on and among [count], closed
    before one does not call [next]. *)
Fixpoint drained (current : list Listener) (first count : nat) : nat :=
  match count with
  | O => O
  | S count' =>
      match outcome_at current first with
      | calls_next _ => S (drained current (S first) count')
      | never_calls_next => O
      end
  end.

(** The calls seen while the listeners [first], ..., [first + count - 1]
    are closed in turn and each calls [next]. *)
Fixpoint closes (current : list Listener) (first count : nat) : list event :=
  match count with
  | O => []
  | S count' =>
      match outcome_at current first with
      | calls_next err =>
          ev_close first :: ev_next first err :: closes current (S first) count'
      | never_calls_next => []
      end
  end.

End Traces.

(** A header name: a string that is not empty. *)
Definition header_name (x : value) : bool :=
  match x with
  | VStr s => negb (String.eqb s "")
  | _ => false
  end.

(** The options [internals.schema] has a key for. *)
Definition known_options : list string :=
  ["onConnection"; "onDisconnection"; "onMessage"; "auth"; "headers";
   "payload"; "heartbeat"; "maxConnections"; "origin"].

(** The auth options the schema has a key for. *)
Definition known_auth_options : list string :=
  ["endpoint"; "id"; "type"; "route"; "cookie"; "isSecure"; "isHttpOnly";
   "path"; "domain"; "ttl"; "iron"; "password"; "index"; "timeout";
   "maxConnectionsPerUser"].

(** The responses passed to [reply], in order. *)
Definition replies (effects : list effect) : list value :=
  flat_map (fun e => match e with Reply response => [response] | _ => [] end)
    effects.

(** The calls seen when the listeners [first], [first + 1], ... are closed
    in turn and pass [errs] to [next]. *)
Definition closed_in_turn (first : nat) (errs : list value) : list event :=
  concat (imap (fun i err => [ev_close (first + i); ev_next (first + i) err]) errs).

(** ** A concrete host

    A sealing primitive that accepts string passwords only, a fixed random
    string, safe integers, names written in ASCII, no string conversions; a
    server with two connections; and a few options and requests. *)

(** The lowercase form of an ASCII character. *)
Definition lower_ascii (c : Ascii.ascii) : Ascii.ascii :=
  let n := Ascii.nat_of_ascii c in
  if (65 <=? n)%nat && (n <=? 90)%nat then Ascii.ascii_of_nat (n + 32) else c.

(** [toLowerCase] on a string of ASCII characters. *)
Fixpoint lower_letters (s : string) : string :=
  match s with
  | EmptyString => EmptyString
  | String c rest => String (lower_ascii c) (lower_letters rest)
  end.

Definition sample_modules : Modules := {|
  Cryptiles_randomString := fun _ _ => "0123456789abcdef0123456789abcdef";
  Iron_seal := fun object password options =>
    match password with
    | VStr s => Sealed ("Fe26.2**" +:+ s)
    | _ => SealFailed (VError "Invalid password")
    end;
  Iron_defaults := obj [("ttl", num 0)];
  number_of_string := fun _ => None;
  JSON_parse := fun _ => None;
  boolean_of_string := fun _ => None;
  isInteger := isSafeInteger;
  toLowerCase := lower_letters;
  Listener_new := fun c s =>
    {| listener_connection := c; listener_settings := s; _stopped := false |}
|}.

Definition sample_server : server :=
  {| connections := [Connection 0; Connection 1];
     states := []; routes := []; exts := []; decorations := [] |}.

Definition no_plugin : plugin :=
  {| plugin_server := sample_server; settings := VNull;
     listeners := []; random_calls := 0 |}.

(** The plugin of a registration that called [next()]. *)
Definition plugin_of (r : registered) : plugin :=
  match r with
  | Next p => p
  | Throws _ => no_plugin
  end.

Definition token_options : value :=
  obj [("auth", obj [("type", VStr "token"); ("endpoint", VStr "/nes/auth")])].

Definition keyed_token_options : value :=
  obj [("auth", obj [("type", VStr "token");
                     ("password", obj [("id", VStr "1"); ("secret", VStr "s")])])].

Definition cookie_options : value :=
  obj [("auth", obj [("type", VStr "cookie"); ("isSecure", VBool false)])].

Definition header_options : value :=
  obj [("headers", VArr [VStr "X-Requested-With"; VStr "Authorization"])].

Definition indexed_options : value :=
  obj [("auth", obj [("index", VBool true)])].

Definition limited_options : value :=
  obj [("auth", obj [("maxConnectionsPerUser", num 2)])].

Definition slow_heartbeat_options : value :=
  obj [("heartbeat", obj [("timeout", num 20000)])].

Definition slow_heartbeat_settings : value :=
  default VNull (Hoek.applyToDefaults internals.defaults slow_heartbeat_options).

Definition limited_settings : value :=
  default VNull (Hoek.applyToDefaults internals.defaults limited_options).

Definition indexed_settings : value :=
  default VNull (Hoek.applyToDefaults internals.defaults indexed_options).

Definition token_plugin : plugin :=
  plugin_of (register (M := sample_modules) sample_server token_options 0).

Definition keyed_token_plugin : plugin :=
  plugin_of (register (M := sample_modules) sample_server keyed_token_options 0).

Definition cookie_plugin : plugin :=
  plugin_of (register (M := sample_modules) sample_server cookie_options 0).

Definition direct_plugin : plugin :=
  plugin_of (register (M := sample_modules) sample_server (obj []) 0).

Definition header_plugin : plugin :=
  plugin_of (register (M := sample_modules) sample_server header_options 0).

Definition indexed_plugin : plugin :=
  plugin_of (register (M := sample_modules) sample_server indexed_options 0).

Definition john : request :=
  {| auth := {| isAuthenticated := true;
                credentials := obj [("user", VStr "john")];
                artifacts := VUndefined |};
     plugins := obj [] |}.

Definition anonymous : request :=
  {| auth := {| isAuthenticated := false;
                credentials := VNull;
                artifacts := VUndefined |};
     plugins := obj [] |}.

(** Listeners that set their flag and call [next()] at once. *)
Definition prompt_close (i : nat) (l : Listener) : Listener * close_outcome :=
  (set_stopped true l, calls_next VUndefined).

Definition stopped_listeners : list Listener :=
  map (set_stopped true) (listeners direct_plugin).

(** More options, and listeners of which the second fails to close. *)

Definition verbose_options : value :=
  obj [("verbose", VBool true)].

Definition secret_options : value :=
  obj [("auth", obj [("secret", VStr "s")])].

Definition basic_options : value :=
  obj [("auth", obj [("type", VStr "basic")])].

Definition basic_settings : value :=
  default VNull (Hoek.applyToDefaults internals.defaults basic_options).

Definition basic_auth : gmap string value :=
  match get basic_settings "auth" with
  | VObj props => props
  | _ => ∅
  end.

Definition numbered_header_options : value :=
  obj [("headers", VArr [VStr "Accept"; num 1])].

Definition crowded_options : value :=
  obj [("maxConnections", num 0)].

Definition crowded_settings : value :=
  default VNull (Hoek.applyToDefaults internals.defaults crowded_options).

Definition logging_options : value :=
  obj [("onMessage", VStr "log")].

Definition logging_settings : value :=
  default VNull (Hoek.applyToDefaults internals.defaults logging_options).

Definition open_options : value :=
  obj [("auth", VBool false)].

Definition open_plugin : plugin :=
  plugin_of (register (M := sample_modules) sample_server open_options 0).


Definition failing_close (i : nat) (l : Listener) : Listener * close_outcome :=
  if Nat.eqb i 1 then (l, calls_next (VError "close failed"))
  else (set_stopped true l, calls_next VUndefined).

Definition three_listeners : list Listener :=
  map (fun c => Listener_new (Modules := sample_modules) c VNull)
    [Connection 0; Connection 1; Connection 2].

(** * Properties *)

(** ** Objects *)

Lemma get_set_eq props k v : get (set (VObj props) k v) k = v.
Proof. simpl. by rewrite lookup_insert_eq. Qed.

Lemma get_set_ne o k k' v : k ≠ k' → get (set o k v) k' = get o k'.
Proof.
  intros Hne. destruct o; simpl; try done.
  by rewrite lookup_insert_ne.
Qed.

(** [{ status: 'authenticated' }] with [token] assigned is the two-property
    object. *)
Lemma authenticated_with_token sealed :
  set (obj [("status", VStr "authenticated")]) "token" (VStr sealed)
  = obj [("status", VStr "authenticated"); ("token", VStr sealed)].
Proof.
  unfold obj, set. by f_equal.
Qed.

(** ** Defaults applied to options *)

Lemma applyToDefaults_shape options s :
  Hoek.applyToDefaults internals.defaults options = Some s →
  s = VNull ∨ ∃ props, s = VObj props.
Proof.
  unfold Hoek.applyToDefaults.
  destruct (negb (truthy options)); [intros [= <-]; by left|].
  destruct options as [| |[|]| | | | | | |sprops]; try discriminate.
  - intros [= <-]. right. unfold Hoek.clone, internals.defaults, obj. eauto.
  - intros [= <-]. right. unfold Hoek.clone, internals.defaults, obj. simpl. eauto.
Qed.

Section PluginFacts.

Context `{M : Modules}.

Lemma assert_null s_children :
  Joi.assert VNull (Joi.keys s_children) = false.
Proof. reflexivity. Qed.

Lemma lowered_obj props s : lowered (VObj props) = Some s → ∃ props', s = VObj props'.
Proof.
  unfold lowered. destruct (get (VObj props) "headers"); try (intros [= <-]; eauto).
  destruct (lower_fields items); simpl; [|discriminate].
  intros [= <-]. eauto.
Qed.

Lemma internals_auth_host srv s calls :
  connections (internals.auth srv s calls).1.1 = connections srv
  ∧ exts (internals.auth srv s calls).1.1 = exts srv.
Proof.
  unfold internals.auth.
  destruct (negb (truthy (get s "auth"))); [done|].
  destruct (negb (strict_eq (get (get s "auth") "type") (VStr "direct"))
            && negb (truthy (get (get s "auth") "password")));
    simpl; by destruct (strict_eq _ (VStr "cookie")).
Qed.

(** What a registration that calls [next()] went through. *)
Lemma register_Next srv options calls p :
  register srv options calls = Next p →
  ∃ props0 props1 srv1,
    Hoek.applyToDefaults internals.defaults options = Some (VObj props0)
    ∧ Joi.assert (VObj props0) internals.schema = true
    ∧ lowered (VObj props0) = Some (VObj props1)
    ∧ internals.auth srv (VObj props1) calls = (srv1, settings p, random_calls p)
    ∧ listeners p = map (fun c => Listener_new c (settings p)) (connections srv)
    ∧ plugin_server p = decorated (length (listeners p)) srv1
    ∧ exts srv1 = exts srv.
Proof.
  unfold register. intros H.
  destruct (Hoek.applyToDefaults internals.defaults options) as [s0|] eqn:Hd; [|done].
  destruct (Joi.assert s0 internals.schema) eqn:Ha; simpl in H; [|done].
  destruct (applyToDefaults_shape _ _ Hd) as [->|[props0 ->]].
  { unfold internals.schema in Ha. by rewrite assert_null in Ha. }
  destruct (lowered (VObj props0)) as [s1|] eqn:Hl; [|done].
  destruct (lowered_obj _ _ Hl) as [props1 ->].
  destruct (internals.auth srv (VObj props1) calls) as [[srv1 s2] calls2] eqn:Hauth.
  injection H as <-. simpl.
  pose proof (internals_auth_host srv (VObj props1) calls) as [Hconn Hexts].
  rewrite Hauth in Hconn, Hexts. simpl in Hconn, Hexts.
  exists props0, props1, srv1. by rewrite Hconn.
Qed.

Lemma lowered_get s s' k :
  lowered s = Some s' → k ≠ "headers" → get s' k = get s k.
Proof.
  unfold lowered. intros H Hk.
  destruct (get s "headers"); try (by injection H as <-).
  destruct (lower_fields items); simpl in H; [|done].
  injection H as <-. by apply get_set_ne.
Qed.

Lemma get_type_is_obj v k s : get v k = VStr s → ∃ props, v = VObj props.
Proof. destruct v; try discriminate. eauto. Qed.

(** What registration leaves behind when authentication is enabled in
    mode [mode]: the password of the endpoint, the number of random
    strings drawn, the cookie definition and the route. *)
Lemma register_endpoint srv options calls p mode :
  register srv options calls = Next p →
  get (get (settings p) "auth") "type" = VStr mode →
  let cfg := get (settings p) "auth" in
  ∃ settings0,
    Hoek.applyToDefaults internals.defaults options = Some settings0
    ∧ let configured := get (get settings0 "auth") "password" in
      let generated := negb (String.eqb mode "direct") && negb (truthy configured) in
      get cfg "password"
        = (if generated then VStr (Cryptiles_randomString calls 32) else configured)
      ∧ random_calls p = (if generated then S calls else calls)
      ∧ states (plugin_server p)
          = (states srv ++ (if String.eqb mode "cookie"
                            then [(get cfg "cookie", cookieOptions cfg)] else []))
      ∧ routes (plugin_server p) = (routes srv ++ [auth_route cfg])
      ∧ ∀ k, k ≠ "password" → get cfg k = get (get settings0 "auth") k.
Proof.
  intros Hreg Hmode cfg.
  destruct (register_Next _ _ _ _ Hreg)
    as (props0 & props1 & srv1 & Hd & _ & Hl & Hauth & _ & Hsrv & _).
  exists (VObj props0). split; [done|]. cbv zeta.
  assert (Hcfg0 : get (VObj props1) "auth" = get (VObj props0) "auth")
    by (by apply (lowered_get _ _ _ Hl)).
  rewrite <- Hcfg0. rewrite Hsrv. clear Hsrv Hd Hl Hcfg0 Hreg.
  unfold internals.auth in Hauth.
  set (config0 := get (VObj props1) "auth") in *.
  destruct (truthy config0) eqn:Htruthy; simpl in Hauth.
  2:{ injection Hauth as _ Hs _. subst cfg. rewrite <- Hs in Hmode.
      fold config0 in Hmode.
      destruct (get_type_is_obj _ _ _ Hmode) as [c Hc].
      rewrite Hc in Htruthy. done. }
  destruct (negb (strict_eq (get config0 "type") (VStr "direct"))
            && negb (truthy (get config0 "password"))) eqn:Hgen.
  - injection Hauth as Hs1 Hs Hc.
    assert (Hcfg : cfg = set config0 "password" (VStr (Cryptiles_randomString calls 32))).
    { subst cfg. rewrite <- Hs. apply get_set_eq. }
    assert (Htype : get config0 "type" = VStr mode).
    { rewrite <- Hmode. fold cfg. rewrite Hcfg. symmetry. by apply get_set_ne. }
    destruct (get_type_is_obj _ _ _ Htype) as [c0 Hc0].
    rewrite Htype in Hgen. simpl in Hgen. rewrite Hgen.
    rewrite <- Hcfg in Hs1.
    assert (Htype' : get cfg "type" = VStr mode) by done.
    rewrite Htype' in Hs1. simpl in Hs1.
    repeat split.
    + rewrite Hcfg, Hc0. apply get_set_eq.
    + done.
    + rewrite <- Hs1. by destruct (String.eqb mode "cookie"); simpl; rewrite ?app_nil_r.
    + rewrite <- Hs1. by destruct (String.eqb mode "cookie").
    + intros k Hk. rewrite Hcfg. by apply get_set_ne.
  - injection Hauth as Hs1 Hs Hc.
    assert (Hcfg : cfg = config0).
    { subst cfg. rewrite <- Hs. apply get_set_eq. }
    assert (Htype : get config0 "type" = VStr mode) by (by rewrite <- Hcfg).
    rewrite Htype in Hgen. simpl in Hgen. rewrite Hgen.
    rewrite <- Hcfg in Hs1.
    assert (Htype' : get cfg "type" = VStr mode) by done.
    rewrite Htype' in Hs1. simpl in Hs1.
    repeat split.
    + by rewrite Hcfg.
    + done.
    + rewrite <- Hs1. by destruct (String.eqb mode "cookie"); simpl; rewrite ?app_nil_r.
    + rewrite <- Hs1. by destruct (String.eqb mode "cookie").
    + intros k Hk. by rewrite Hcfg.
Qed.

End PluginFacts.

(** ** The authentication endpoint *)

Section Handshake.

Context `{M : Modules}.

(** C1. In token mode the endpoint is a GET route whose handler, for an
    authenticated request, seals [{credentials, artifacts}] with the
    password of the endpoint and replies
    [{status: 'authenticated', token: sealed}]; that password is the
    configured one, or, when none is configured, the one random string
    drawn during registration. *)
Theorem token_handshake_sealed srv options calls p request sealed :
  register srv options calls = Next p →
  let cfg := get (settings p) "auth" in
  get cfg "type" = VStr "token" →
  isAuthenticated (auth request) = true →
  Iron_seal (envelope request) (get cfg "password") (seal_options cfg) = Sealed sealed →
  (∃ r, routes (plugin_server p) = (routes srv ++ [r])
        ∧ method r = "GET" ∧ path r = get cfg "endpoint"
        ∧ handler (config r) request
          = [Seal (envelope request) (get cfg "password") (seal_options cfg);
             Reply (obj [("status", VStr "authenticated"); ("token", VStr sealed)])])
  ∧ (∃ settings0,
        Hoek.applyToDefaults internals.defaults options = Some settings0
        ∧ let configured := get (get settings0 "auth") "password" in
          get cfg "password"
            = (if truthy configured then configured
               else VStr (Cryptiles_randomString calls 32))
          ∧ random_calls p = (if truthy configured then calls else S calls)).
Proof.
  intros Hreg cfg Hmode Hauth Hseal.
  destruct (register_endpoint _ _ _ _ _ Hreg Hmode)
    as (settings0 & Hd & Hpw & Hcalls & _ & Hroutes & _).
  fold cfg in Hpw, Hroutes. simpl in Hpw, Hcalls.
  split.
  - exists (auth_route cfg). split; [done|].
    unfold auth_route; simpl. rewrite Hmode. simpl. repeat split.
    unfold auth_handler. rewrite Hauth, Hmode. cbn -[set obj get].
    fold (envelope request). fold (seal_options cfg).
    rewrite Hseal. by rewrite authenticated_with_token.
  - exists settings0. split; [done|]. cbv zeta.
    destruct (truthy (get (get settings0 "auth") "password")); done.
Qed.

(** C4. In direct mode the handler replies [{credentials, artifacts}] as
    found in the request, on an internal route; registration draws no
    random string, defines no cookie, and leaves the password setting as
    configured. *)
Theorem direct_handshake_verbatim srv options calls p request :
  register srv options calls = Next p →
  let cfg := get (settings p) "auth" in
  get cfg "type" = VStr "direct" →
  isAuthenticated (auth request) = true →
  (∃ r, routes (plugin_server p) = (routes srv ++ [r])
        ∧ method r = "auth" ∧ isInternal (config r) = true
        ∧ handler (config r) request
          = [Reply (obj [("credentials", credentials (auth request));
                         ("artifacts", artifacts (auth request))])])
  ∧ random_calls p = calls
  ∧ states (plugin_server p) = states srv
  ∧ (∃ settings0,
        Hoek.applyToDefaults internals.defaults options = Some settings0
        ∧ get cfg "password" = get (get settings0 "auth") "password").
Proof.
  intros Hreg cfg Hmode Hauth.
  destruct (register_endpoint _ _ _ _ _ Hreg Hmode)
    as (settings0 & Hd & Hpw & Hcalls & Hstates & Hroutes & _).
  fold cfg in Hpw, Hroutes, Hstates. simpl in Hpw, Hcalls, Hstates.
  rewrite app_nil_r in Hstates.
  split; [|eauto].
  exists (auth_route cfg). split; [done|].
  unfold auth_route; simpl. rewrite Hmode. simpl. repeat split.
  unfold auth_handler. by rewrite Hauth, Hmode.
Qed.

(** C5. In token mode, when sealing fails, the handler replies with the
    error: after the call of the sealing primitive the reply is its only
    effect. *)
Theorem token_seal_failure_replied srv options calls p request err :
  register srv options calls = Next p →
  let cfg := get (settings p) "auth" in
  get cfg "type" = VStr "token" →
  isAuthenticated (auth request) = true →
  Iron_seal (envelope request) (get cfg "password") (seal_options cfg) = SealFailed err →
  ∃ r, routes (plugin_server p) = (routes srv ++ [r])
       ∧ handler (config r) request
         = [Seal (envelope request) (get cfg "password") (seal_options cfg);
            Reply err].
Proof.
  intros Hreg cfg Hmode Hauth Hseal.
  destruct (register_endpoint _ _ _ _ _ Hreg Hmode)
    as (settings0 & _ & _ & _ & _ & Hroutes & _).
  fold cfg in Hroutes.
  exists (auth_route cfg). split; [done|].
  unfold auth_route; simpl.
  unfold auth_handler. rewrite Hauth, Hmode. cbn -[set obj get].
  fold (envelope request). fold (seal_options cfg).
  by rewrite Hseal.
Qed.

(** C6. Whatever the mode of the endpoint, the handler answers an
    unauthenticated request with [{status: 'unauthenticated'}] and nothing
    else: no sealing, no cookie, and a reply that does not depend on the
    credentials or artifacts of the request. *)
Theorem unauthenticated_reply srv options calls p mode request :
  register srv options calls = Next p →
  get (get (settings p) "auth") "type" = VStr mode →
  isAuthenticated (auth request) = false →
  ∃ r, routes (plugin_server p) = (routes srv ++ [r])
       ∧ handler (config r) request
         = [Reply (obj [("status", VStr "unauthenticated")])].
Proof.
  intros Hreg Hmode Hauth.
  destruct (register_endpoint _ _ _ _ _ Hreg Hmode)
    as (settings0 & _ & _ & _ & _ & Hroutes & _).
  eexists. split; [done|].
  unfold auth_route; simpl.
  unfold auth_handler. by rewrite Hauth.
Qed.

(** C7. In cookie mode registration defines the cookie named by the
    configuration with the configured attributes, the password of the
    endpoint, the iron options and the ['iron'] encoding; the handler, for
    an authenticated request, replies [{status: 'authenticated'}] and sets
    that cookie to [{credentials, artifacts}]. *)
Theorem cookie_handshake srv options calls p request :
  register srv options calls = Next p →
  let cfg := get (settings p) "auth" in
  get cfg "type" = VStr "cookie" →
  isAuthenticated (auth request) = true →
  states (plugin_server p)
    = (states srv ++
       [(get cfg "cookie",
         obj [("isSecure", get cfg "isSecure");
              ("isHttpOnly", get cfg "isHttpOnly");
              ("path", get cfg "path");
              ("domain", get cfg "domain");
              ("ttl", get cfg "ttl");
              ("encoding", VStr "iron");
              ("password", get cfg "password");
              ("iron", get cfg "iron")])])
  ∧ (∃ r, routes (plugin_server p) = (routes srv ++ [r])
          ∧ handler (config r) request
            = [Reply (obj [("status", VStr "authenticated")]);
               State (get cfg "cookie")
                     (obj [("credentials", credentials (auth request));
                           ("artifacts", artifacts (auth request))])])
  ∧ (∃ settings0,
        Hoek.applyToDefaults internals.defaults options = Some settings0
        ∧ (∀ k, k ≠ "password" → get cfg k = get (get settings0 "auth") k)
        ∧ let configured := get (get settings0 "auth") "password" in
          get cfg "password"
            = (if truthy configured then configured
               else VStr (Cryptiles_randomString calls 32))).
Proof.
  intros Hreg cfg Hmode Hauth.
  destruct (register_endpoint _ _ _ _ _ Hreg Hmode)
    as (settings0 & Hd & Hpw & _ & Hstates & Hroutes & Hsame).
  fold cfg in Hpw, Hroutes, Hstates, Hsame. simpl in Hpw, Hstates.
  split; [done|]. split.
  - exists (auth_route cfg). split; [done|].
    unfold auth_route; simpl.
    unfold auth_handler. by rewrite Hauth, Hmode.
  - exists settings0. repeat split; [done..|]. cbv zeta.
    by destruct (truthy (get (get settings0 "auth") "password")).
Qed.

End Handshake.

(** ** Lifecycle hooks *)

Section Hooks.

Variable closing : nat -> Listener -> Listener * close_outcome.

Lemma run_length h : ∀ ls : list Listener, length (run closing h ls).2 = length ls.
Proof.
  induction h as [err|i b k IH|i next IH]; intros ls; simpl.
  - done.
  - destruct (ls !! i) as [l|]; [|done].
    specialize (IH (<[i:=set_stopped b l]> ls)).
    destruct (run closing k _) as [trace after]. simpl in *.
    by rewrite IH, length_insert.
  - destruct (ls !! i) as [l|]; [|done].
    destruct (closing i l) as [l' [err|]]; simpl.
    + specialize (IH err (<[i:=l']> ls)).
      destruct (run closing (next err) _) as [trace after]. simpl in *.
      by rewrite IH, length_insert.
    + by rewrite length_insert.
Qed.

(** The loop of [onPreStart] from index [first]. *)
Lemma run_clear_loop count : ∀ first (ls : list Listener),
  first + count ≤ length ls →
  ∃ after,
    run closing (for_ first count (fun i k => assign_stopped i false k)
                      (extNext VUndefined)) ls
    = (map (fun i => ev_assign_stopped i false) (seq first count)
         ++ [ev_extNext VUndefined], after)
    ∧ ∀ j, after !! j
           = if decide (first ≤ j < first + count)
             then set_stopped false <$> ls !! j else ls !! j.
Proof.
  induction count as [|count IH]; intros first ls Hlen; simpl.
  - exists ls. split; [done|]. intros j. case_decide; [lia|done].
  - destruct (lookup_lt_is_Some_2 ls first ltac:(lia)) as [l Hl].
    rewrite Hl.
    destruct (IH (S first) (<[first:=set_stopped false l]> ls)) as (after & Hrun & Hafter).
    { rewrite length_insert. lia. }
    rewrite Hrun. exists after. split; [done|].
    intros j. rewrite Hafter.
    destruct (decide (j = first)) as [->|Hne].
    + rewrite list_lookup_insert_eq by (by eapply lookup_lt_Some).
      rewrite Hl. repeat case_decide; try lia. done.
    + rewrite list_lookup_insert_ne by done.
      repeat case_decide; try lia; done.
Qed.

Lemma run_onPreStart (ls : list Listener) :
  run closing (onPreStart (length ls)) ls
  = (map (fun i => ev_assign_stopped i false) (seq 0 (length ls))
       ++ [ev_extNext VUndefined],
     map (set_stopped false) ls).
Proof.
  destruct (run_clear_loop (length ls) 0 ls) as (after & Hrun & Hafter); [lia|].
  unfold onPreStart. rewrite Hrun. f_equal.
  apply list_eq. intros j. rewrite Hafter, list_lookup_fmap.
  case_decide as Hj; [done|].
  rewrite (lookup_ge_None_2 ls j) by lia. done.
Qed.


Lemma drained_le current count : ∀ first, drained closing current first count ≤ count.
Proof.
  induction count as [|count IH]; intros first; simpl; [done|].
  destruct (outcome_at closing current first); [|lia].
  specialize (IH (S first)). lia.
Qed.





(** The iteration of [onPreStop] from index [first] when the listener [j]
    is the first to pass an error to [next]. *)
Lemma run_serial_error (current : list Listener) j err count :
  ∀ first (ls : list Listener),
  length ls = length current →
  first + count ≤ length current →
  (∀ i, first ≤ i → ls !! i = current !! i) →
  first ≤ j < first + count →
  (∀ i, first ≤ i < j →
        ∃ e, outcome_at closing current i = calls_next e ∧ truthy e = false) →
  outcome_at closing current j = calls_next err →
  truthy err = true →
  ∃ after,
    run closing
      (Items.serial (seq first count)
         (fun listener nextListener => _close listener nextListener) extNext)
      ls
    = (closes closing current first (j - first)
         ++ [ev_close j; ev_next j err; ev_extNext err], after)
    ∧ ∀ i, j < i → after !! i = current !! i.
Proof.
  induction count as [|count IH];
    intros first ls Hlen Hle Hagree Hj Hbefore Hout Herr; [lia|].
  simpl.
  destruct (lookup_lt_is_Some_2 current first ltac:(lia)) as [l Hl].
  rewrite (Hagree first) by lia. rewrite Hl.
  destruct (decide (first = j)) as [->|Hne].
  - unfold outcome_at in Hout. rewrite Hl in Hout.
    destruct (closing j l) as [l' o]. simpl in Hout. subst o.
    rewrite Herr. simpl. rewrite Nat.sub_diag. simpl.
    eexists. split; [done|].
    intros i Hi. rewrite list_lookup_insert_ne by lia. apply Hagree. lia.
  - destruct (Hbefore first ltac:(lia)) as (e & He & Hfalsy).
    replace (j - first) with (S (j - S first)) by lia.
    cbn [closes]. rewrite He.
    unfold outcome_at in He. rewrite Hl in He.
    destruct (closing first l) as [l' o]. simpl in He. subst o.
    rewrite Hfalsy.
    destruct (IH (S first) (<[first:=l']> ls)) as (after & Hrun & Hafter);
      try done.
    + by rewrite length_insert.
    + lia.
    + intros i Hi. rewrite list_lookup_insert_ne by lia. apply Hagree. lia.
    + lia.
    + intros i Hi. apply Hbefore. lia.
    + rewrite Hrun. by exists after.
Qed.

End Hooks.

Section RegisteredHooks.

Context `{M : Modules}.
Variable closing : nat -> Listener -> Listener * close_outcome.

Lemma register_exts srv options calls p :
  register srv options calls = Next p →
  length (listeners p) = length (connections srv)
  ∧ exts (plugin_server p)
    = exts srv ++ [("onPreStart", onPreStart (length (listeners p)));
                   ("onPreStop", onPreStop (length (listeners p)))].
Proof.
  intros Hreg.
  destruct (register_Next _ _ _ _ Hreg)
    as (props0 & props1 & srv1 & _ & _ & _ & _ & Hls & Hsrv & Hexts).
  split.
  - by rewrite Hls, length_map.
  - rewrite Hsrv. simpl. rewrite Hexts. by rewrite <- app_assoc.
Qed.

(** C9. The hook registered for [onPreStart] assigns [false] to the
    [_stopped] flag of every listener, then calls [extNext()]: whatever
    state the listeners are in, and in particular the state the
    [onPreStop] hook left them in, every flag is [false] when the hook
    completes. *)
Theorem onPreStart_clears_stopped srv options calls p (current : list Listener) :
  register srv options calls = Next p →
  length current = length (listeners p) →
  ∃ start stop,
    exts (plugin_server p) = exts srv ++ [("onPreStart", start); ("onPreStop", stop)]
    ∧ run closing start current
      = (map (fun i => ev_assign_stopped i false) (seq 0 (length current))
           ++ [ev_extNext VUndefined],
         map (set_stopped false) current)
    ∧ Forall (fun l => _stopped l = false) (run closing start current).2
    ∧ Forall (fun l => _stopped l = false)
             (run closing start (run closing stop current).2).2.
Proof.
  intros Hreg Hlen.
  destruct (register_exts _ _ _ _ Hreg) as [_ Hexts].
  rewrite <- Hlen in Hexts.
  eexists _, _. split; [exact Hexts|].
  assert (Hclear : ∀ ls : list Listener,
             Forall (fun l => _stopped l = false) (map (set_stopped false) ls)).
  { intros ls. apply Forall_forall. intros l Hin.
    apply list_elem_of_fmap in Hin as (l0 & -> & _). done. }
  rewrite (run_onPreStart closing current). repeat split; [apply Hclear|].
  pose proof (run_onPreStart closing
                (run closing (onPreStop (length current)) current).2) as Hrun.
  rewrite run_length in Hrun. rewrite Hrun. apply Hclear.
Qed.


End RegisteredHooks.

(** ** Validation of the configuration *)

Lemma get_store_ne T k k' r : k ≠ k' → get (Joi.store T k r) k' = get T k'.
Proof.
  intros Hne. unfold Joi.store.
  destruct r; try done; by apply get_set_ne.
Qed.

Lemma strict_eq_bool_false v : strict_eq v (VBool false) = true → v = VBool false.
Proof. destruct v as [| |[|]| | | | | | |]; simpl; done. Qed.

Section ConfigValidation.

Context `{M : Modules}.

(** A child that fails makes the object fail: [P] holds of the object and
    is kept by the children validated before. *)
Lemma each_child_rejects (P : value → Prop) children : ∀ j k s target,
  children !! j = Some (k, s) →
  P target →
  (∀ j0 k0 s0 T r, j0 < j → children !! j0 = Some (k0, s0) → P T →
     Joi.validate s0 T (get T k0) = Some r → P (Joi.store T k0 r)) →
  (∀ T, P T → Joi.validate s T (get T k) = None) →
  Joi.each_child Joi.validate children target = None.
Proof.
  induction children as [|[k0 s0] rest IH]; intros j k s target Hj HP Hkeep Hfail.
  - done.
  - simpl. destruct j as [|j]; simpl in Hj.
    + injection Hj as -> ->. by rewrite Hfail.
    + destruct (Joi.validate s0 target (get target k0)) as [r|] eqn:Hr; [|done].
      apply (IH j k s); try done.
      * by apply (Hkeep 0 k0 s0); [lia|..].
      * intros j0 k1 s1 T r1 Hlt. apply (Hkeep (S j0)). lia.
Qed.

(** An object schema with keys rejects an object one of whose children
    fails. *)
Lemma keys_reject (P : value → Prop) children valids pres j k s props parent :
  children !! j = Some (k, s) →
  P (VObj props) →
  (∀ j0 k0 s0 T r, j0 < j → children !! j0 = Some (k0, s0) → P T →
     Joi.validate s0 T (get T k0) = Some r → P (Joi.store T k0 r)) →
  (∀ T, P T → Joi.validate s T (get T k) = None) →
  Joi.has valids (VObj props) = false →
  Joi.validate (Joi.Schema (Joi.t_object (Some children)) valids [] false pres)
               parent (VObj props) = None.
Proof.
  intros Hj HP Hkeep Hfail Hvalids.
  cbn [Joi.validate Joi.check Joi.convert Joi.parsed is_object_like isArray
       negb andb Joi.has existsb].
  rewrite Hvalids.
  rewrite (each_child_rejects P children j k s); try done.
  by destruct pres.
Qed.

Lemma has_primitives_obj valids props :
  Joi.has valids (VObj props) = false.
Proof. induction valids as [|v valids IH]; [done|]. simpl. by rewrite IH. Qed.

Lemma get_set_same T k v : get T k = v → get (set T k v) k = v.
Proof.
  destruct T; simpl; try done. intros _. by rewrite lookup_insert_eq.
Qed.

Lemma Qlt_bool_false (a b : Q) : (b <= a)%Q → Qlt_bool a b = false.
Proof.
  intros Hle. unfold Qlt_bool.
  by rewrite (proj2 (Qle_bool_iff b a) Hle).
Qed.

(** The heartbeat schema rejects a timeout that is not below the
    interval, whatever the object it is validated in. *)
Lemma heartbeat_rejected parent hprops (t i : Q) :
  hprops !! "timeout" = Some (VNum t) →
  hprops !! "interval" = Some (VNum i) →
  (i <= t)%Q →
  Joi.validate internals.heartbeat_schema parent (VObj hprops) = None.
Proof.
  intros Ht Hi Hle.
  let s := eval cbv in internals.heartbeat_schema in
    change internals.heartbeat_schema with s.
  eapply (keys_reject
            (fun T => get T "timeout" = VNum t ∧ get T "interval" = VNum i))
    with (j := 1) (k := "timeout").
  - reflexivity.
  - simpl. by rewrite Ht, Hi.
  - intros j0 k0 s0 T r Hlt Hc [HTt HTi] Hr.
    destruct j0 as [|j0]; [|lia]. injection Hc as <- <-.
    rewrite HTi in Hr. cbn in Hr.
    destruct (isInteger i && (Qle_bool 1 i && true)); [|done].
    injection Hr as <-. simpl. split.
    + by rewrite get_set_ne.
    + by apply get_set_same.
  - intros T [HTt HTi]. rewrite HTt. cbn. rewrite HTi.
    rewrite (Qlt_bool_false t i Hle).
    by destruct (isInteger t), (Qle_bool 1 t).
  - done.
Qed.

Lemma get_defined_is_obj v k : get v k ≠ VUndefined → ∃ props, v = VObj props.
Proof. destruct v; simpl; try done. eauto. Qed.

Lemma assert_false_throws srv options calls settings0 :
  Hoek.applyToDefaults internals.defaults options = Some settings0 →
  Joi.assert settings0 internals.schema = false →
  register srv options calls = Throws "Invalid nes configuration".
Proof. intros Hd Ha. unfold register. by rewrite Hd, Ha. Qed.

(** C2. When the effective heartbeat settings hold a timeout that is not
    below the interval, the settings fail validation and [register]
    throws: no route, hook or listener is created. *)
Theorem heartbeat_timeout_not_below_interval_rejected
    srv options calls settings0 (t i : Q) :
  Hoek.applyToDefaults internals.defaults options = Some settings0 →
  get (get settings0 "heartbeat") "timeout" = VNum t →
  get (get settings0 "heartbeat") "interval" = VNum i →
  (i <= t)%Q →
  Joi.assert settings0 internals.schema = false
  ∧ register srv options calls = Throws "Invalid nes configuration".
Proof.
  intros Hd Ht Hi Hle.
  assert (Ha : Joi.assert settings0 internals.schema = false).
  { destruct (get_defined_is_obj (get settings0 "heartbeat") "timeout")
      as [hprops Hhb]; [by rewrite Ht|].
    destruct (get_defined_is_obj settings0 "heartbeat") as [props0 ->];
      [by rewrite Hhb|].
    rewrite Hhb in Ht, Hi. simpl in Ht, Hi.
    unfold Joi.assert, internals.schema, Joi.keys.
    rewrite (keys_reject (fun T => get T "heartbeat" = VObj hprops)
               _ _ _ 6 "heartbeat" internals.heartbeat_schema); try done.
    - intros j0 k0 s0 T r Hlt Hc HT _.
      rewrite get_store_ne; [done|].
      do 6 (destruct j0 as [|j0]; [by injection Hc as <- <-|]). lia.
    - intros T ->.
      apply (heartbeat_rejected T hprops t i); [| |done].
      + destruct (hprops !! "timeout"); simpl in Ht; [by rewrite Ht|done].
      + destruct (hprops !! "interval"); simpl in Hi; [by rewrite Hi|done]. }
  split; [done|]. by apply assert_false_throws with settings0.
Qed.

End ConfigValidation.

(** ** Effective settings *)

Lemma get_own o k : get o k = default VUndefined (own o k).
Proof. by destruct o. Qed.

Lemma own_merge tprops sprops k :
  own (Hoek.merge (VObj tprops) (VObj sprops)) k
  = Hoek.merge_prop Hoek.merge (tprops !! k) (sprops !! k).
Proof.
  cbn [Hoek.merge own]. rewrite lookup_merge.
  by destruct (tprops !! k), (sprops !! k).
Qed.

(** The settings are the defaults with each property of the options merged
    in. *)
Lemma applyToDefaults_own options settings0 k :
  Hoek.applyToDefaults internals.defaults options = Some settings0 →
  settings0 ≠ VNull →
  own settings0 k
  = Hoek.merge_prop Hoek.merge (own internals.defaults k) (own options k).
Proof.
  unfold Hoek.applyToDefaults.
  destruct (negb (truthy options)); [by intros [= <-]|].
  destruct options as [| |[|]| | | | | | |sprops]; try discriminate;
    intros [= <-] _.
  - unfold Hoek.clone. by destruct (own internals.defaults k).
  - unfold Hoek.clone, internals.defaults, obj. apply own_merge.
Qed.

Lemma merge_object_like t s :
  is_object_like t = true → is_object_like (Hoek.merge t s) = true.
Proof. intros Ht. by destruct t, s. Qed.

(** A property that the target defines stays defined. *)
Lemma merge_prop_defined tv s :
  nullish tv = false →
  ∃ v, Hoek.merge_prop Hoek.merge (Some tv) s = Some v ∧ nullish v = false.
Proof.
  intros Htv. destruct s as [sv|]; simpl; [|eauto].
  destruct (truthy sv && is_object_like sv) eqn:Hobj.
  - apply andb_true_iff in Hobj as [Htr Hol].
    assert (Hsv : nullish sv = false) by (by destruct sv).
    destruct (negb (truthy tv) || negb (is_object_like tv)
              || negb (Bool.eqb (isArray tv) (isArray sv))
              || match sv with VBuffer _ => true | _ => false end) eqn:Hc.
    + eauto.
    + eexists. split; [done|].
      apply orb_false_iff in Hc as [Hc _].
      apply orb_false_iff in Hc as [Hc _].
      apply orb_false_iff in Hc as [_ Hc].
      apply negb_false_iff in Hc.
      pose proof (merge_object_like tv sv Hc) as Hm.
      by destruct (Hoek.merge tv sv).
  - destruct (nullish sv) eqn:Hn; simpl; eauto.
Qed.

(** The headers setting is the option, or [null] when the option is
    missing or [null]. *)
Lemma applyToDefaults_headers options settings0 :
  Hoek.applyToDefaults internals.defaults options = Some settings0 →
  settings0 ≠ VNull →
  get settings0 "headers"
  = if nullish (get options "headers") then VNull else get options "headers".
Proof.
  intros Hd Hnn. rewrite !get_own.
  rewrite (applyToDefaults_own _ _ "headers" Hd Hnn).
  change (own internals.defaults "headers") with (Some VNull).
  destruct (own options "headers") as [sv|]; [|done]. simpl.
  destruct (truthy sv && is_object_like sv) eqn:Hobj.
  - apply andb_true_iff in Hobj as [Htr _]. by destruct sv.
  - by destruct (nullish sv) eqn:Hn.
Qed.

Lemma lower_fields_strings `{M : Modules} names :
  lower_fields (map VStr names) = Some (map (fun s => VStr (toLowerCase s)) names).
Proof.
  induction names as [|s names IH]; [done|]. simpl. by rewrite IH.
Qed.

Section EffectiveSettings.

Context `{M : Modules}.

Lemma internals_auth_get srv s calls k :
  k ≠ "auth" → get (internals.auth srv s calls).1.2 k = get s k.
Proof.
  intros Hk. unfold internals.auth.
  destruct (negb (truthy (get s "auth"))); [done|].
  destruct (negb (strict_eq (get (get s "auth") "type") (VStr "direct"))
            && negb (truthy (get (get s "auth") "password")));
    simpl; by rewrite get_set_ne.
Qed.

(** C10. After a registration that calls [next()], a headers option given
    as an array of strings is in the settings with every string in
    lowercase, in the same order; the option ['*'] is in the settings as
    it is, and a missing or [null] option leaves the setting [null]. *)
Theorem headers_lowercased srv options calls p :
  register srv options calls = Next p →
  (∀ names, get options "headers" = VArr (map VStr names) →
     get (settings p) "headers" = VArr (map (fun s => VStr (toLowerCase s)) names))
  ∧ (get options "headers" = VStr "*" → get (settings p) "headers" = VStr "*")
  ∧ (nullish (get options "headers") = true → get (settings p) "headers" = VNull).
Proof.
  intros Hreg.
  destruct (register_Next _ _ _ _ Hreg)
    as (props0 & props1 & srv1 & Hd & _ & Hl & Hauth & _).
  pose proof (applyToDefaults_headers _ _ Hd ltac:(done)) as Hh.
  pose proof (internals_auth_get srv (VObj props1) calls "headers" ltac:(done)) as Hk.
  rewrite Hauth in Hk. simpl in Hk. rewrite Hk. clear Hk Hauth Hreg Hd.
  unfold lowered in Hl. rewrite Hh in Hl.
  repeat split.
  - intros names Hopt. rewrite Hopt in Hl. simpl in Hl.
    rewrite lower_fields_strings in Hl. injection Hl as Hl.
    rewrite <- Hl. by rewrite lookup_insert_eq.
  - intros Hopt. rewrite Hopt in Hl, Hh. simpl in Hl, Hh.
    injection Hl as <-. done.
  - intros Hopt. rewrite Hopt in Hl, Hh. injection Hl as <-. done.
Qed.

End EffectiveSettings.

(** ** Connections per user *)

Section ConnectionsPerUser.

Context `{M : Modules}.

Lemma strict_eq_not_false v : v ≠ VBool false → strict_eq v (VBool false) = false.
Proof.
  intros Hv. destruct (strict_eq v (VBool false)) eqn:He; [|done].
  by apply strict_eq_bool_false in He.
Qed.

(** The auth schema rejects settings without index in which
    [maxConnectionsPerUser] is anything but [false]. *)
Lemma maxConnectionsPerUser_rejected parent aprops v :
  aprops !! "index" = Some (VBool false) →
  aprops !! "maxConnectionsPerUser" = Some v →
  v ≠ VBool false → v ≠ VUndefined →
  Joi.validate internals.auth_schema parent (VObj aprops) = None.
Proof.
  intros Hindex Hmax Hv Hdef.
  let s := eval cbv in internals.auth_schema in
    change internals.auth_schema with s.
  eapply (keys_reject
            (fun T => get T "index" = VBool false
                      ∧ get T "maxConnectionsPerUser" = v))
    with (j := 14) (k := "maxConnectionsPerUser").
  - reflexivity.
  - simpl. by rewrite Hindex, Hmax.
  - intros j0 k0 s0 T r Hlt Hc [HTi HTm] Hr.
    do 12 (destruct j0 as [|j0];
           [injection Hc as <- <-; by rewrite !get_store_ne|]).
    destruct j0 as [|j0].
    { injection Hc as <- <-. rewrite HTi in Hr. cbn in Hr.
      injection Hr as <-. split; [by apply get_set_same|by rewrite get_store_ne]. }
    destruct j0 as [|j0]; [injection Hc as <- <-; by rewrite !get_store_ne|].
    lia.
  - intros T [HTi HTm]. rewrite HTm.
    cbn -[Joi.has]. rewrite HTi. cbn -[Joi.has].
    assert (Hhas : Joi.has [VBool false; VBool false] v = false).
    { simpl. by rewrite (strict_eq_not_false v Hv). }
    destruct v; try done; cbn -[Joi.has]; rewrite ?Hhas; try done.
    by destruct (number_of_string s).
  - done.
Qed.

Lemma default_maxConnectionsPerUser :
  ∃ dprops, own internals.defaults "auth" = Some (VObj dprops)
            ∧ dprops !! "maxConnectionsPerUser" = Some (VBool false).
Proof. eexists. split; by vm_compute. Qed.

(** [maxConnectionsPerUser] always has a value in effective auth
    settings. *)
Lemma effective_maxConnectionsPerUser options settings0 aprops :
  Hoek.applyToDefaults internals.defaults options = Some settings0 →
  get settings0 "auth" = VObj aprops →
  ∃ v, aprops !! "maxConnectionsPerUser" = Some v ∧ nullish v = false.
Proof.
  intros Hd Hauth.
  assert (Hnn : settings0 ≠ VNull) by (by intros ->).
  pose proof (applyToDefaults_own _ _ "auth" Hd Hnn) as Hown.
  rewrite get_own in Hauth.
  destruct (own settings0 "auth") as [a|]; [|done]. simpl in Hauth. subst a.
  destruct default_maxConnectionsPerUser as (dprops & Hda & Hdm).
  rewrite Hda in Hown. clear Hda.
  destruct (own options "auth") as [sv|]; simpl in Hown.
  2:{ injection Hown as ->. eauto. }
  destruct (truthy sv && is_object_like sv) eqn:Hobj.
  - destruct sv as [| |b|n|s|name|bytes|message|items|sprops];
      simpl in Hown; try discriminate; injection Hown as ->; eauto.
    change (base.merge ?f dprops sprops !! ?k)
      with (own (Hoek.merge (VObj dprops) (VObj sprops)) k).
    rewrite own_merge, Hdm. by apply merge_prop_defined.
  - destruct (nullish sv); simpl in Hown; injection Hown as Hown.
    + subst. eauto.
    + by subst sv.
Qed.

(** Without index in the effective auth settings, a
    [maxConnectionsPerUser] other than [false] fails validation. *)
Lemma maxConnectionsPerUser_without_index srv options calls settings0 v :
  Hoek.applyToDefaults internals.defaults options = Some settings0 →
  get (get settings0 "auth") "index" = VBool false →
  get (get settings0 "auth") "maxConnectionsPerUser" = v →
  v ≠ VBool false →
  Joi.assert settings0 internals.schema = false
  ∧ register srv options calls = Throws "Invalid nes configuration".
Proof.
  intros Hd Hindex Hmax Hv.
  assert (Ha : Joi.assert settings0 internals.schema = false).
  { destruct (get_defined_is_obj (get settings0 "auth") "index")
      as [aprops Hauth]; [by rewrite Hindex|].
    destruct (effective_maxConnectionsPerUser _ _ _ Hd Hauth) as (v' & Hv' & Hdef).
    destruct (get_defined_is_obj settings0 "auth") as [props0 ->];
      [by rewrite Hauth|].
    rewrite Hauth in Hindex, Hmax. simpl in Hindex, Hmax.
    rewrite Hv' in Hmax. simpl in Hmax. subst v'.
    unfold Joi.assert, internals.schema, Joi.keys.
    rewrite (keys_reject (fun T => get T "auth" = VObj aprops)
               _ _ _ 3 "auth" internals.auth_schema); try done.
    - intros j0 k0 s0 T r Hlt Hc HT _.
      rewrite get_store_ne; [done|].
      do 3 (destruct j0 as [|j0]; [by injection Hc as <- <-|]). lia.
    - intros T ->.
      apply (maxConnectionsPerUser_rejected T aprops v); try done.
      + destruct (aprops !! "index"); simpl in Hindex; [by rewrite Hindex|done].
      + by intros ->. }
  split; [done|]. by apply assert_false_throws with settings0.
Qed.

End ConnectionsPerUser.

(** ** Accepted objects *)

Section Accepted.

Context `{M : Modules}.

Lemma each_child_app f a : ∀ b T,
  Joi.each_child f (a ++ b) T
  = match Joi.each_child f a T with
    | Some T' => Joi.each_child f b T'
    | None => None
    end.
Proof.
  induction a as [|[k s] a IH]; intros b T; simpl; [done|].
  destruct (f s T (get T k)); [apply IH|done].
Qed.

(** A property of the object that every child keeps holds of the result. *)
Lemma each_child_keeps (P : value → Prop) children : ∀ T T',
  Joi.each_child Joi.validate children T = Some T' →
  P T →
  (∀ k s U r, (k, s) ∈ children → P U →
     Joi.validate s U (get U k) = Some r → P (Joi.store U k r)) →
  P T'.
Proof.
  induction children as [|[k s] rest IH]; intros T T' Hrun HP Hkeep; simpl in Hrun.
  - by injection Hrun as <-.
  - destruct (Joi.validate s T (get T k)) as [r|] eqn:Hr; [|done].
    apply (IH _ _ Hrun).
    + apply (Hkeep k s); [apply list_elem_of_here|done..].
    + intros k0 s0 U r0 Hin. apply Hkeep. by apply list_elem_of_further.
Qed.

(** Children that do not look at the object and have distinct keys: the
    object passes when each property passes. *)
Lemma each_child_independent children : ∀ T,
  Forall (fun c => independent c.2) children →
  NoDup children.*1 →
  is_Some (Joi.each_child Joi.validate children T)
  ↔ Forall (fun c => is_Some (Joi.validate c.2 VUndefined (get T c.1))) children.
Proof.
  induction children as [|[k s] rest IH]; intros T Hind Hnodup; simpl.
  - split; [by constructor|eauto].
  - apply Forall_cons in Hind as [Hs Hind].
    apply NoDup_cons in Hnodup as [Hk Hnodup].
    rewrite Forall_cons. simpl in *.
    rewrite (Hs T VUndefined).
    destruct (Joi.validate s VUndefined (get T k)) as [r|].
    + rewrite (IH _ Hind Hnodup), !Forall_forall.
      assert (Hget : ∀ c, c ∈ rest → get (Joi.store T k r) c.1 = get T c.1).
      { intros [k0 s0] Hin. apply get_store_ne.
        intros ->. apply Hk. apply list_elem_of_fmap. by exists (k0, s0). }
      split.
      * intros Hall. split; [eauto|].
        intros c Hin. rewrite <- (Hget c Hin). by apply Hall.
      * intros [_ Hall] c Hin. rewrite (Hget c Hin). by apply Hall.
    + split; [by intros [? ?]|]. by intros [[? ?] _].
Qed.

(** When an object schema with keys accepts an object. *)
Lemma keys_accept children valids pres props parent :
  is_Some (Joi.validate
             (Joi.Schema (Joi.t_object (Some children)) valids [] false pres)
             parent (VObj props))
  ↔ is_Some (Joi.each_child Joi.validate children (VObj props))
    ∧ Joi.has_unknown_keys (VObj props) children.*1 = false.
Proof.
  cbn [Joi.validate Joi.check Joi.convert Joi.parsed is_object_like isArray
       negb andb Joi.has existsb].
  rewrite has_primitives_obj.
  assert (Hmap : map fst children = children.*1) by done. rewrite Hmap.
  destruct (Joi.each_child Joi.validate children (VObj props)) as [T|].
  - destruct (Joi.has_unknown_keys (VObj props) children.*1); destruct pres;
      split; try (by intros [? ?]); try (by intros [_ ?]); eauto.
  - destruct pres; split;
      try (by intros [? ?]); by intros [[? ?] _].
Qed.

(** Assigning a known key leaves no unknown key. *)
Lemma has_unknown_keys_insert props known k v :
  k ∈ known →
  Joi.has_unknown_keys (VObj props) known = false →
  Joi.has_unknown_keys (VObj (<[k := v]> props)) known = false.
Proof.
  unfold Joi.has_unknown_keys. intros Hk Hsub.
  apply negb_false_iff, bool_decide_eq_true in Hsub.
  apply negb_false_iff, bool_decide_eq_true.
  rewrite dom_insert_L. apply union_subseteq. split; [|done].
  apply singleton_subseteq_l. by apply elem_of_list_to_set.
Qed.

End Accepted.

Section AcceptedSettings.

Context `{M : Modules}.

(** An array schema does not look at the enclosing object when its item
    schemas do not. *)
Lemma independent_array inclusions is_single min_length valids invalids only pres :
  Forall independent inclusions →
  independent (Joi.Schema (Joi.t_array inclusions is_single min_length)
                          valids invalids only pres).
Proof.
  intros Hind T T' x.
  assert (Hitems : ∀ l,
             Joi.each_item (fun s y => Joi.validate s T y) inclusions l
             = Joi.each_item (fun s y => Joi.validate s T' y) inclusions l).
  { induction l as [|y l IH]; simpl; [done|]. rewrite IH.
    assert (Hfirst : Joi.first_some (fun s => Joi.validate s T y) inclusions
                     = Joi.first_some (fun s => Joi.validate s T' y) inclusions).
    { clear IH. induction Hind as [|s ss Hs _ IHs]; simpl; [done|].
      by rewrite (Hs T T' y), IHs. }
    by rewrite Hfirst. }
  cbn [Joi.validate Joi.check].
  destruct pres, x; try done;
    repeat (match goal with
            | |- context [match ?c with _ => _ end] =>
                lazymatch c with
                | Joi.each_item _ _ _ => fail
                | _ => destruct c eqn:?; try done
                end
            end);
    by rewrite ?Hitems.
Qed.

Ltac independence :=
  lazymatch goal with
  | |- independent ?s =>
      let e := eval cbv in s in
      change (independent e);
      lazymatch e with
      | Joi.Schema (Joi.t_array _ _ _) _ _ _ _ =>
          apply independent_array; repeat constructor; intros ? ? ?; reflexivity
      | _ => intros ? ? ?; reflexivity
      end
  end.

Lemma schema_children_independent children :
  internals.schema = Joi.keys children →
  Forall (fun c => independent c.2) children ∧ NoDup children.*1.
Proof.
  intros [= <-]. split.
  - repeat (apply Forall_cons; split; [simpl; independence|]). constructor.
  - by apply (bool_decide_unpack _).
Qed.

(** Settings stay valid when [auth] is replaced by a value that the auth
    schema accepts. *)
Lemma settings_accept_auth props0 a' :
  Joi.assert (VObj props0) internals.schema = true →
  is_Some (Joi.validate internals.auth_schema VUndefined a') →
  Joi.assert (VObj (<["auth" := a']> props0)) internals.schema = true.
Proof.
  unfold Joi.assert. intros H0 Ha.
  assert (H : is_Some (Joi.validate internals.schema VUndefined (VObj props0))).
  { destruct (Joi.validate internals.schema VUndefined (VObj props0)); [eauto|done]. }
  clear H0.
  cut (is_Some (Joi.validate internals.schema VUndefined (VObj (<["auth" := a']> props0)))).
  { by intros [? ->]. }
  destruct (schema_children_independent _ eq_refl) as [Hind Hnodup].
  unfold internals.schema, Joi.keys in *.
  apply keys_accept in H as [Hrun Hunk]. apply keys_accept. split.
  - apply (each_child_independent _ _ Hind Hnodup) in Hrun.
    apply (each_child_independent _ _ Hind Hnodup).
    repeat (apply Forall_cons in Hrun as [? Hrun]).
    repeat (apply Forall_cons; split); try apply Forall_nil;
      cbn [get fst snd] in *;
      rewrite ?lookup_insert_eq, ?lookup_insert_ne by done; done.
  - apply has_unknown_keys_insert; [|done].
    by apply (bool_decide_unpack _).
Qed.

(** Valid auth settings with index stay valid when
    [maxConnectionsPerUser] is set to an integer that is at least 1. *)
Lemma auth_accept_maxConnectionsPerUser aprops (n : Q) T :
  is_Some (Joi.validate internals.auth_schema T (VObj aprops)) →
  aprops !! "index" = Some (VBool true) →
  isInteger n = true →
  (1 <= n)%Q →
  is_Some (Joi.validate internals.auth_schema T
             (VObj (<["maxConnectionsPerUser" := VNum n]> aprops))).
Proof.
  intros H Hindex Hint Hmin.
  let s := eval cbv in internals.auth_schema in
    change internals.auth_schema with s in *.
  apply keys_accept in H as [Hrun Hunk]. apply keys_accept.
  split; [|apply has_unknown_keys_insert; [by apply (bool_decide_unpack _)|done]].
  match goal with
  | |- is_Some (Joi.each_child _ ?L _) =>
      rewrite <- (take_drop 14 L) in Hrun |- *
  end.
  cbn [take drop firstn skipn] in *.
  rewrite each_child_app in Hrun |- *.
  match goal with
  | |- context [Joi.each_child _ ?L (VObj (<[_ := _]> _))] => set (pre := L) in *
  end.
  assert (Hpre : is_Some (Joi.each_child Joi.validate pre (VObj aprops))).
  { destruct (Joi.each_child Joi.validate pre (VObj aprops)); [eauto|by destruct Hrun]. }
  assert (Hind : Forall (fun c => independent c.2) pre).
  { subst pre. repeat (apply Forall_cons; split; [simpl; independence|]). constructor. }
  assert (Hnodup : NoDup pre.*1) by (by apply (bool_decide_unpack _)).
  assert (Hpre' : is_Some (Joi.each_child Joi.validate pre
                             (VObj (<["maxConnectionsPerUser" := VNum n]> aprops)))).
  { apply (each_child_independent _ _ Hind Hnodup) in Hpre.
    apply (each_child_independent _ _ Hind Hnodup).
    subst pre.
    repeat (apply Forall_cons in Hpre as [? Hpre]).
    repeat (apply Forall_cons; split); try apply Forall_nil;
      cbn [get fst snd] in *;
      rewrite ?lookup_insert_ne by done; done. }
  destruct Hpre' as [T1 HT1]. rewrite HT1.
  assert (Hinv : get T1 "index" = VBool true
                 ∧ get T1 "maxConnectionsPerUser" = VNum n).
  { apply (each_child_keeps
             (fun U => get U "index" = VBool true
                       ∧ get U "maxConnectionsPerUser" = VNum n) _ _ _ HT1).
    - cbn [get]. rewrite lookup_insert_eq, lookup_insert_ne by done.
      by rewrite Hindex.
    - intros k s U r Hin [HUi HUm] Hr. subst pre.
      repeat (apply elem_of_cons in Hin as [Hin|Hin]);
        try (by apply elem_of_nil in Hin);
        injection Hin as -> ->; try (by rewrite !get_store_ne).
      rewrite HUi in Hr. cbn in Hr. injection Hr as <-.
      split; [by apply get_set_same|by rewrite get_store_ne]. }
  destruct Hinv as [Hi Hm].
  cbn [Joi.each_child]. rewrite Hm.
  cbn -[Qle_bool]. rewrite Hi. cbn -[Qle_bool].
  rewrite Hint. rewrite (proj2 (Qle_bool_iff 1 n) Hmin). cbn. eauto.
Qed.

Lemma default_index :
  ∃ dprops, own internals.defaults "auth" = Some (VObj dprops)
            ∧ dprops !! "index" = Some (VBool false).
Proof. eexists. split; by vm_compute. Qed.

Lemma merge_prop_number t (n : Q) :
  Hoek.merge_prop Hoek.merge t (Some (VNum n)) = Some (VNum n).
Proof. unfold Hoek.merge_prop. simpl. by rewrite andb_false_r. Qed.

(** The effective settings of options with index, once
    [maxConnectionsPerUser] is set in them. *)
Lemma applyToDefaults_with_maxConnectionsPerUser options props0 aprops (n : Q) :
  Hoek.applyToDefaults internals.defaults options = Some (VObj props0) →
  props0 !! "auth" = Some (VObj aprops) →
  aprops !! "index" = Some (VBool true) →
  Hoek.applyToDefaults internals.defaults (with_maxConnectionsPerUser n options)
  = Some (VObj (<["auth" := VObj (<["maxConnectionsPerUser" := VNum n]> aprops)]> props0)).
Proof.
  intros Hd Hauth Hindex.
  pose proof (applyToDefaults_own _ _ "auth" Hd ltac:(done)) as Hown.
  change (own (VObj props0) "auth") with (props0 !! "auth") in Hown.
  rewrite Hauth in Hown.
  destruct default_index as (dprops & Hda & Hdi).
  rewrite Hda in Hown.
  assert (Hsame : aprops = dprops → False).
  { intros ->. rewrite Hdi in Hindex. done. }
  destruct (own options "auth") as [sv|] eqn:Hoa; simpl in Hown.
  2:{ injection Hown as ->. done. }
  destruct (truthy sv && is_object_like sv) eqn:Hobj.
  2:{ destruct (nullish sv); simpl in Hown; injection Hown as Hown;
        [by subst|by subst sv]. }
  destruct sv as [| |b|m|s|name|bytes|message|items|sprops];
    simpl in Hown; try discriminate; injection Hown as Hown;
    try (by subst).
  destruct options as [| |b|m|s|name|bytes|message|items|optprops];
    try discriminate. cbn [own] in Hoa.
  assert (Hdef : ∃ dprops0, internals.defaults = VObj dprops0)
    by (unfold internals.defaults, obj; eauto).
  destruct Hdef as [dprops0 Hdef]. rewrite Hdef in *. cbn [own] in Hda.
  unfold with_maxConnectionsPerUser. cbn [get set]. rewrite Hoa. cbn [default set].
  unfold Hoek.applyToDefaults, Hoek.clone in *. cbn [truthy negb Hoek.merge] in *.
  injection Hd as Hd. do 2 f_equal. rewrite <- Hd. symmetry.
  apply insert_merge_r. rewrite Hda.
  unfold Hoek.merge_prop.
  cbn [truthy is_object_like andb negb orb isArray Bool.eqb Hoek.clone Hoek.merge].
  do 2 f_equal. rewrite Hown. symmetry.
  apply insert_merge_r. apply merge_prop_number.
Qed.

Lemma register_accepts srv options calls settings0 settings1 :
  Hoek.applyToDefaults internals.defaults options = Some settings0 →
  Joi.assert settings0 internals.schema = true →
  lowered settings0 = Some settings1 →
  ∃ p, register srv options calls = Next p
       ∧ settings p = (internals.auth srv settings1 calls).1.2.
Proof.
  intros Hd Ha Hl. unfold register. rewrite Hd, Ha, Hl. simpl.
  destruct (internals.auth srv settings1 calls) as [[srv1 s2] calls2].
  eauto.
Qed.

Lemma internals_auth_keeps srv props calls cprops k v :
  props !! "auth" = Some (VObj cprops) →
  cprops !! k = Some v →
  k ≠ "password" →
  get (get (internals.auth srv (VObj props) calls).1.2 "auth") k = v.
Proof.
  intros Hauth Hk Hne. unfold internals.auth.
  cbn [get]. rewrite Hauth. cbn [default truthy negb].
  destruct (negb _ && negb _);
    cbn -[lookup insert]; rewrite lookup_insert_eq; cbn -[lookup insert].
  - rewrite lookup_insert_ne by done. by rewrite Hk.
  - by rewrite Hk.
Qed.

(** C3. Without index in the effective auth settings, a
    [maxConnectionsPerUser] other than [false] makes [register] throw;
    with index, and the integer test of Joi being
    [Number.isSafeInteger], options that register still register once
    [maxConnectionsPerUser] is set to any safe integer that is at least
    1. *)
Theorem maxConnectionsPerUser_requires_index srv options calls settings0 :
  Hoek.applyToDefaults internals.defaults options = Some settings0 →
  (∀ v, get (get settings0 "auth") "index" = VBool false →
        get (get settings0 "auth") "maxConnectionsPerUser" = v →
        v ≠ VBool false →
        register srv options calls = Throws "Invalid nes configuration")
  ∧ (∀ (n : Q) p,
        (∀ q, isInteger q = isSafeInteger q) →
        get (get settings0 "auth") "index" = VBool true →
        register srv options calls = Next p →
        isSafeInteger n = true →
        (1 <= n)%Q →
        ∃ p', register srv (with_maxConnectionsPerUser n options) calls = Next p'
              ∧ get (get (settings p') "auth") "maxConnectionsPerUser" = VNum n).
Proof.
  intros Hd. split.
  - intros v Hindex Hmax Hv.
    by apply (maxConnectionsPerUser_without_index srv options calls settings0 v).
  - intros n p Hsafe Hindex Hreg Hint Hmin.
    rewrite <- Hsafe in Hint.
    destruct (register_Next _ _ _ _ Hreg)
      as (props0 & props1 & srv1 & Hd' & Ha & Hl & _).
    rewrite Hd in Hd'. injection Hd' as ->.
    destruct (get_defined_is_obj (get (VObj props0) "auth") "index")
      as [aprops Hauth]; [by rewrite Hindex|].
    rewrite Hauth in Hindex. cbn [get] in Hauth, Hindex.
    assert (Hauth' : props0 !! "auth" = Some (VObj aprops)).
    { destruct (props0 !! "auth"); simpl in Hauth; [by rewrite Hauth|done]. }
    assert (Hindex' : aprops !! "index" = Some (VBool true)).
    { destruct (aprops !! "index"); simpl in Hindex; [by rewrite Hindex|done]. }
    pose proof (applyToDefaults_with_maxConnectionsPerUser
                  options props0 aprops n Hd Hauth' Hindex') as Hdn.
    set (aprops' := <["maxConnectionsPerUser" := VNum n]> aprops) in *.
    assert (Han : Joi.assert (VObj (<["auth" := VObj aprops']> props0))
                    internals.schema = true).
    { apply settings_accept_auth; [done|].
      apply auth_accept_maxConnectionsPerUser; try done.
      unfold Joi.assert in Ha.
      destruct (schema_children_independent _ eq_refl) as [Hind Hnodup].
      unfold internals.schema, Joi.keys in Ha.
      match type of Ha with
      | match ?v with _ => _ end = _ =>
          assert (H : is_Some v) by (destruct v; [eauto|done])
      end.
      apply keys_accept in H as [Hrun _].
      apply (each_child_independent _ _ Hind Hnodup) in Hrun.
      do 3 (apply Forall_cons in Hrun as [_ Hrun]).
      apply Forall_cons in Hrun as [Hrun _].
      cbn [get fst snd] in Hrun. by rewrite Hauth' in Hrun. }
    assert (Hln : ∃ s1, lowered (VObj (<["auth" := VObj aprops']> props0)) = Some s1
                        ∧ own s1 "auth" = Some (VObj aprops')).
    { unfold lowered in *. cbn [get] in *.
      rewrite lookup_insert_ne by done.
      destruct (default VUndefined (props0 !! "headers"));
        try (eexists; split; [done|]; cbn [own]; by rewrite lookup_insert_eq).
      destruct (lower_fields items); [|done].
      eexists; split; [done|]. cbn [set own].
      rewrite lookup_insert_ne by done. by rewrite lookup_insert_eq. }
    destruct Hln as (s1 & Hln & Hs1).
    destruct (register_accepts srv _ calls _ _ Hdn Han Hln) as (p' & Hreg' & Hset).
    exists p'. split; [done|]. rewrite Hset.
    destruct s1 as [| |b|m|s|name|bytes|message|items|sprops1]; try done.
    apply (internals_auth_keeps srv sprops1 calls aprops'); try done.
    subst aprops'. by rewrite lookup_insert_eq.
Qed.

End AcceptedSettings.

(** * Further properties *)

(** ** Options the schema refuses *)

Lemma merge_prop_some merge t v :
  nullish v = false → is_Some (Hoek.merge_prop merge t (Some v)).
Proof.
  intros Hv. unfold Hoek.merge_prop.
  destruct (truthy v && is_object_like v).
  - destruct t as [tv|]; [|eauto]. by destruct (_ || _).
  - rewrite Hv. simpl. eauto.
Qed.

Lemma applyToDefaults_object oprops :
  ∃ props0, Hoek.applyToDefaults internals.defaults (VObj oprops) = Some (VObj props0).
Proof. unfold Hoek.applyToDefaults, internals.defaults, obj. simpl. eauto. Qed.

Section Refused.

Context `{M : Modules}.

Lemma keys_unknown children valids pres props parent k :
  is_Some (props !! k) →
  k ∉ children.*1 →
  Joi.validate (Joi.Schema (Joi.t_object (Some children)) valids [] false pres)
               parent (VObj props) = None.
Proof.
  intros Hk Hnot.
  destruct (Joi.validate _ parent (VObj props)) as [r|] eqn:Hv; [|done].
  exfalso.
  assert (H : is_Some (Joi.validate
                         (Joi.Schema (Joi.t_object (Some children)) valids [] false pres)
                         parent (VObj props))) by (rewrite Hv; eauto).
  apply keys_accept in H as [_ Hunk].
  unfold Joi.has_unknown_keys in Hunk.
  apply negb_false_iff, bool_decide_eq_true in Hunk.
  apply Hnot. apply elem_of_dom in Hk. apply Hunk in Hk.
  by apply elem_of_list_to_set in Hk.
Qed.

(** X1. An option that the schema has no key for, and that is neither
    [null] nor [undefined], makes [register] throw.  The key [__proto__] is
    left out: assigning to it stores no property. *)
Theorem unknown_option_rejected srv options calls k v :
  own options k = Some v →
  nullish v = false →
  k ≠ "__proto__" →
  k ∉ known_options →
  register srv options calls = Throws "Invalid nes configuration".
Proof.
  intros Hk Hv _ Hnot.
  destruct options as [| |b|n|s|name|bytes|message|items|oprops]; try done.
  destruct (applyToDefaults_object oprops) as [props0 Hd].
  apply assert_false_throws with (VObj props0); [done|].
  pose proof (applyToDefaults_own _ _ k Hd ltac:(done)) as Hown.
  rewrite Hk in Hown.
  destruct (merge_prop_some Hoek.merge (own internals.defaults k) v Hv) as [v' Hv'].
  rewrite Hv' in Hown. cbn [own] in Hown.
  unfold Joi.assert, internals.schema, Joi.keys.
  by rewrite (keys_unknown _ _ _ props0 VUndefined k).
Qed.

(** X2. An auth option that the schema has no key for, and that is neither
    [null] nor [undefined], makes [register] throw. *)
Theorem unknown_auth_option_rejected srv options calls oauth k v :
  own options "auth" = Some (VObj oauth) →
  oauth !! k = Some v →
  nullish v = false →
  k ≠ "__proto__" →
  k ∉ known_auth_options →
  register srv options calls = Throws "Invalid nes configuration".
Proof.
  intros Hauth Hk Hv _ Hnot.
  destruct options as [| |b|n|s|name|bytes|message|items|oprops]; try done.
  destruct (applyToDefaults_object oprops) as [props0 Hd].
  apply assert_false_throws with (VObj props0); [done|].
  pose proof (applyToDefaults_own _ _ "auth" Hd ltac:(done)) as Hown.
  rewrite Hauth in Hown.
  destruct default_index as (dprops & Hda & _). rewrite Hda in Hown.
  cbn [own Hoek.merge_prop truthy is_object_like andb negb orb isArray Bool.eqb
       Hoek.merge] in Hown.
  assert (Hin : is_Some (base.merge (Hoek.merge_prop Hoek.merge) dprops oauth !! k)).
  { rewrite lookup_merge, Hk.
    destruct (merge_prop_some Hoek.merge (dprops !! k) v Hv) as [v' Hv'].
    destruct (dprops !! k); simpl in *; rewrite Hv'; eauto. }
  unfold Joi.assert, internals.schema, Joi.keys.
  rewrite (keys_reject (fun T => get T "auth"
             = VObj (base.merge (Hoek.merge_prop Hoek.merge) dprops oauth))
             _ _ _ 3 "auth" internals.auth_schema); try done.
  - cbn [get]. by rewrite Hown.
  - intros j0 k0 s0 T r Hlt Hc HT _.
    rewrite get_store_ne; [done|].
    do 3 (destruct j0 as [|j0]; [by injection Hc as <- <-|]). lia.
  - intros T ->.
    let s := eval cbv in internals.auth_schema in
      change internals.auth_schema with s.
    by apply (keys_unknown _ _ _ _ _ k).
Qed.

Lemma strict_eq_str v s : strict_eq v (VStr s) = true → v = VStr s.
Proof.
  destruct v; simpl; try done. intros H. by apply String.eqb_eq in H as ->.
Qed.

(** An object one of whose properties is refused by its schema, whatever
    the enclosing object, is refused. *)
Lemma keys_child_rejects children valids pres props parent j k s :
  NoDup children.*1 →
  children !! j = Some (k, s) →
  (∀ T, Joi.validate s T (get (VObj props) k) = None) →
  Joi.validate (Joi.Schema (Joi.t_object (Some children)) valids [] false pres)
               parent (VObj props) = None.
Proof.
  intros Hnodup Hj Hfail.
  apply (keys_reject (fun T => get T k = get (VObj props) k) _ _ _ j k s);
    try done.
  - intros j0 k0 s0 T r Hlt Hc HT _.
    rewrite get_store_ne; [done|]. intros ->.
    assert (j0 = j); [|lia].
    apply (NoDup_lookup children.*1 j0 j k); [done|..];
      rewrite list_lookup_fmap; [by rewrite Hc|by rewrite Hj].
  - intros T ->. apply Hfail.
  - apply has_primitives_obj.
Qed.

(** Settings one of whose properties is refused fail validation. *)
Lemma schema_child_rejects props0 children j k s :
  internals.schema = Joi.keys children →
  children !! j = Some (k, s) →
  (∀ T, Joi.validate s T (get (VObj props0) k) = None) →
  Joi.assert (VObj props0) internals.schema = false.
Proof.
  intros Hs Hj Hfail. unfold Joi.assert. rewrite Hs. unfold Joi.keys.
  rewrite (keys_child_rejects _ _ _ _ _ j k s); try done.
  destruct (schema_children_independent _ Hs) as [_ Hnodup]. done.
Qed.

(** Auth settings one of whose properties is refused are refused. *)
Lemma auth_child_rejects aprops children j k s parent :
  internals.auth_schema
  = Joi.required (Joi.allow [VBool false] (Joi.keys children)) →
  children !! j = Some (k, s) →
  (∀ T, Joi.validate s T (get (VObj aprops) k) = None) →
  Joi.validate internals.auth_schema parent (VObj aprops) = None.
Proof.
  intros Hs Hj Hfail. rewrite Hs.
  cbn [Joi.required Joi.allow Joi.keys Joi.without List.filter app].
  apply (keys_child_rejects _ _ _ _ _ j k s); try done.
  injection Hs as <-. by apply (bool_decide_unpack _).
Qed.

(** X3. An auth type other than ['cookie'], ['token'] and ['direct'] makes
    [register] throw. *)
Theorem auth_type_checked srv options calls settings0 aprops :
  Hoek.applyToDefaults internals.defaults options = Some settings0 →
  get settings0 "auth" = VObj aprops →
  (∀ mode, mode ∈ ["cookie"; "token"; "direct"] → get (VObj aprops) "type" ≠ VStr mode) →
  register srv options calls = Throws "Invalid nes configuration".
Proof.
  intros Hd Hauth Htype.
  apply assert_false_throws with settings0; [done|].
  destruct (get_defined_is_obj settings0 "auth") as [props0 ->]; [by rewrite Hauth|].
  apply (schema_child_rejects props0 _ 3 "auth" internals.auth_schema eq_refl eq_refl).
  intros T. rewrite Hauth.
  apply (auth_child_rejects aprops _ 2 "type" _ T eq_refl eq_refl).
  intros U.
  assert (Hhas : Joi.has [VStr "cookie"; VStr "token"; VStr "direct"]
                         (get (VObj aprops) "type") = false).
  { unfold Joi.has. apply not_true_iff_false. intros Hex.
    apply existsb_exists in Hex as (m & Hin & Heq).
    apply list_elem_of_In in Hin.
    repeat (apply elem_of_cons in Hin as [->|Hin]);
      try (by apply elem_of_nil in Hin);
      apply strict_eq_str in Heq; apply Htype in Heq; try done;
      rewrite !elem_of_cons; tauto. }
  cbn -[Joi.has get]. destruct (get (VObj aprops) "type"); try done;
    cbn -[Joi.has]; by rewrite Hhas.
Qed.

Lemma each_item_refused f s l :
  (∀ x, header_name x = false → x ≠ VUndefined → f s x = None) →
  forallb header_name l = false →
  Joi.each_item f [s] l = None.
Proof.
  intros Hf. induction l as [|x l IH]; [done|]. simpl.
  destruct (header_name x) eqn:Hx; simpl.
  - intros Hl. rewrite (IH Hl).
    destruct x; try done. by destruct (f s (VStr s0)).
  - intros _. destruct x; try done; by rewrite Hf.
Qed.

(** X4. A headers option given as an array makes [register] throw when the
    array is empty or holds anything but non-empty strings. *)
Theorem headers_must_be_names srv options calls l :
  get options "headers" = VArr l →
  l = [] ∨ forallb header_name l = false →
  register srv options calls = Throws "Invalid nes configuration".
Proof.
  intros Hopt Hbad.
  destruct (get_defined_is_obj options "headers") as [oprops ->]; [by rewrite Hopt|].
  destruct (applyToDefaults_object oprops) as [props0 Hd].
  apply assert_false_throws with (VObj props0); [done|].
  pose proof (applyToDefaults_headers _ _ Hd ltac:(done)) as Hh.
  rewrite Hopt in Hh. cbn [nullish] in Hh.
  apply (schema_child_rejects props0 _ 4 "headers" _ eq_refl eq_refl).
  intros T. rewrite Hh.
  cbn -[Joi.each_item Nat.leb].
  destruct Hbad as [-> |Hbad]; [done|].
  rewrite each_item_refused; [done| |done].
  intros x Hx Hdef.
  destruct x as [| |b|n|s|name|bytes|message|items|props]; try done.
  cbn. simpl in Hx. apply negb_false_iff in Hx. by rewrite Hx.
Qed.

(** A limit: [false] or an integer that is at least 1. *)
Lemma limit_rejects T (n : Q) :
  (n < 1)%Q ∨ isInteger n = false →
  Joi.validate (Joi.number |> Joi.integer |> Joi.min 1 |> Joi.allow [VBool false])
               T (VNum n) = None.
Proof.
  intros Hbad.
  match goal with
  | |- Joi.validate ?s _ _ = _ =>
      let e := eval cbv in s in change s with e
  end.
  cbn -[Qle_bool].
  destruct Hbad as [Hlt| ->]; [|done].
  assert (Hle : Qle_bool 1 n = false).
  { apply not_true_iff_false. intros H. apply Qle_bool_iff in H.
    by apply Qlt_not_le in Hlt. }
  rewrite Hle. by destruct (isInteger n).
Qed.

(** X5. A connection limit, a chunk size or a handshake timeout that is a
    number below 1 or not an integer makes [register] throw. *)
Theorem limits_checked srv options calls settings0 (n : Q) :
  Hoek.applyToDefaults internals.defaults options = Some settings0 →
  (n < 1)%Q ∨ isInteger n = false →
  get settings0 "maxConnections" = VNum n
  ∨ get (get settings0 "payload") "maxChunkChars" = VNum n
  ∨ get (get settings0 "auth") "timeout" = VNum n →
  register srv options calls = Throws "Invalid nes configuration".
Proof.
  intros Hd Hbad Hwhere.
  apply assert_false_throws with settings0; [done|].
  destruct Hwhere as [Hmax|[Hchunk|Htimeout]].
  - destruct (get_defined_is_obj settings0 "maxConnections") as [props0 ->];
      [by rewrite Hmax|].
    apply (schema_child_rejects props0 _ 7 "maxConnections" _ eq_refl eq_refl).
    intros T. rewrite Hmax. by apply limit_rejects.
  - destruct (get_defined_is_obj (get settings0 "payload") "maxChunkChars")
      as [pprops Hp]; [by rewrite Hchunk|].
    destruct (get_defined_is_obj settings0 "payload") as [props0 ->];
      [by rewrite Hp|].
    apply (schema_child_rejects props0 _ 5 "payload" _ eq_refl eq_refl).
    intros T. rewrite Hp. rewrite Hp in Hchunk.
    unfold Joi.keys.
    eapply (keys_child_rejects _ _ _ _ _ 0 "maxChunkChars");
      [by apply (bool_decide_unpack _)|reflexivity|].
    intros U. rewrite Hchunk. by apply limit_rejects.
  - destruct (get_defined_is_obj (get settings0 "auth") "timeout")
      as [aprops Ha]; [by rewrite Htimeout|].
    destruct (get_defined_is_obj settings0 "auth") as [props0 ->];
      [by rewrite Ha|].
    apply (schema_child_rejects props0 _ 3 "auth" _ eq_refl eq_refl).
    intros T. rewrite Ha. rewrite Ha in Htimeout.
    apply (auth_child_rejects aprops _ 13 "timeout" _ T eq_refl eq_refl).
    intros U. rewrite Htimeout. by apply limit_rejects.
Qed.

End Refused.

(** ** What registration changes *)

Lemma truthy_set c k v : truthy (set c k v) = true ↔ truthy c = true.
Proof. by destruct c. Qed.

Lemma lower_ascii_idempotent c : lower_ascii (lower_ascii c) = lower_ascii c.
Proof. destruct c as [[] [] [] [] [] [] [] []]; reflexivity. Qed.

Lemma lower_letters_idempotent s : lower_letters (lower_letters s) = lower_letters s.
Proof.
  induction s as [|c s IH]; [done|]. simpl.
  by rewrite lower_ascii_idempotent, IH.
Qed.

Lemma lower_fields_lower `{M : Modules} fields l :
  (∀ s, toLowerCase (toLowerCase s) = toLowerCase s) →
  lower_fields fields = Some l →
  Forall (fun x => ∃ s, x = VStr s ∧ toLowerCase s = s) l.
Proof.
  intros Hidem. revert l. induction fields as [|x fields IH]; intros l; simpl.
  - intros [= <-]. constructor.
  - destruct x; try done.
    destruct (lower_fields fields) as [l'|]; [|done]. simpl.
    intros [= <-]. constructor; [|by apply IH].
    eexists. split; [done|]. apply Hidem.
Qed.

Section Registration.

Context `{M : Modules}.

(** What [internals.auth] leaves of the server. *)
Lemma internals_auth_appends srv s calls :
  ∃ new_states new_routes,
    states (internals.auth srv s calls).1.1 = states srv ++ new_states
    ∧ routes (internals.auth srv s calls).1.1 = routes srv ++ new_routes
    ∧ length new_states ≤ 1 ∧ length new_routes ≤ 1
    ∧ decorations (internals.auth srv s calls).1.1 = decorations srv
    ∧ calls ≤ (internals.auth srv s calls).2 ≤ S calls.
Proof.
  unfold internals.auth.
  destruct (negb (truthy (get s "auth"))).
  { exists [], []. simpl. rewrite !app_nil_r. repeat split; lia. }
  destruct (negb (strict_eq (get (get s "auth") "type") (VStr "direct"))
            && negb (truthy (get (get s "auth") "password")));
    cbn -[strict_eq get set cookieOptions auth_route];
    destruct (strict_eq _ (VStr "cookie"));
    cbn -[strict_eq get set cookieOptions auth_route].
  all: first [ (eexists [_], [_]; split; [reflexivity|]; split; [reflexivity|]; repeat split; simpl; first [lia|reflexivity])
             | (eexists [], [_]; rewrite app_nil_r;
                split; [reflexivity|]; split; [reflexivity|]; repeat split; simpl; first [lia|reflexivity]) ].
Qed.

(** X6. [register] keeps the connections of the server and builds one
    listener for each, in order, from the settings as [internals.auth] left
    them; it appends at most one cookie definition and one route, then its
    two hooks and its five decorations, and draws at most one random
    string. *)
Theorem register_appends srv options calls p :
  register srv options calls = Next p →
  connections (plugin_server p) = connections srv
  ∧ listeners p = map (fun c => Listener_new c (settings p)) (connections srv)
  ∧ (∃ new_states new_routes,
       states (plugin_server p) = states srv ++ new_states
       ∧ routes (plugin_server p) = routes srv ++ new_routes
       ∧ length new_states ≤ 1 ∧ length new_routes ≤ 1)
  ∧ exts (plugin_server p)
    = exts srv ++ [("onPreStart", onPreStart (length (connections srv)));
                   ("onPreStop", onPreStop (length (connections srv)))]
  ∧ decorations (plugin_server p)
    = decorations srv ++ [("server", "broadcast"); ("server", "subscription");
                          ("server", "publish"); ("server", "eachSocket");
                          ("request", "socket")]
  ∧ calls ≤ random_calls p ≤ S calls.
Proof.
  intros Hreg.
  destruct (register_exts _ _ _ _ Hreg) as [Hlen Hexts].
  destruct (register_Next _ _ _ _ Hreg)
    as (props0 & props1 & srv1 & _ & _ & _ & Hauth & Hls & Hsrv & _).
  pose proof (internals_auth_host srv (VObj props1) calls) as [Hconn _].
  destruct (internals_auth_appends srv (VObj props1) calls)
    as (new_states & new_routes & Hst & Hrt & Hls1 & Hlr1 & Hdec & Hcalls).
  rewrite Hauth in Hconn, Hst, Hrt, Hdec, Hcalls. simpl in *.
  rewrite Hlen in Hexts.
  split; [by rewrite Hsrv|]. split; [done|].
  split; [exists new_states, new_routes; by rewrite Hsrv|].
  split; [done|]. split; [|done].
  rewrite Hsrv. simpl. rewrite Hdec. by rewrite <- !app_assoc.
Qed.

(** X7. Registration changes two things in the effective settings: the
    headers and the password of the endpoint. *)
Theorem register_settings_frame srv options calls p :
  register srv options calls = Next p →
  ∃ settings0,
    Hoek.applyToDefaults internals.defaults options = Some settings0
    ∧ (∀ k, k ≠ "headers" → k ≠ "auth" → get (settings p) k = get settings0 k)
    ∧ (∀ k, k ≠ "password" →
         get (get (settings p) "auth") k = get (get settings0 "auth") k).
Proof.
  intros Hreg.
  destruct (register_Next _ _ _ _ Hreg)
    as (props0 & props1 & srv1 & Hd & _ & Hl & Hauth & _).
  exists (VObj props0). split; [done|].
  assert (Hs : settings p = (internals.auth srv (VObj props1) calls).1.2)
    by (by rewrite Hauth).
  split.
  - intros k Hk1 Hk2. rewrite Hs, internals_auth_get by done.
    by apply (lowered_get _ _ _ Hl).
  - intros k Hk.
    rewrite <- (lowered_get _ _ "auth" Hl) by done.
    rewrite Hs. unfold internals.auth.
    destruct (negb (truthy (get (VObj props1) "auth"))); [done|].
    destruct (negb _ && negb _); cbn -[get set];
      rewrite get_set_eq; [by apply get_set_ne|done].
Qed.

(** X8. With authentication disabled [register] adds no route and no cookie
    definition and draws no random string. *)
Theorem auth_disabled_registers_nothing srv options calls p :
  register srv options calls = Next p →
  truthy (get (settings p) "auth") = false →
  routes (plugin_server p) = routes srv
  ∧ states (plugin_server p) = states srv
  ∧ random_calls p = calls.
Proof.
  intros Hreg Hoff.
  destruct (register_Next _ _ _ _ Hreg)
    as (props0 & props1 & srv1 & _ & _ & _ & Hauth & _ & Hsrv & _).
  rewrite Hsrv. unfold internals.auth in Hauth.
  destruct (truthy (get (VObj props1) "auth")) eqn:Hon;
    cbn [negb] in Hauth; cbv iota in Hauth.
  - exfalso.
    destruct (negb _ && negb _); injection Hauth as _ Hs _;
      rewrite <- Hs in Hoff; cbn [get] in Hoff, Hon;
      rewrite lookup_insert_eq in Hoff; cbn [default] in Hoff;
      apply not_true_iff_false in Hoff; apply Hoff; [|done].
    by apply truthy_set.
  - by injection Hauth as <- _ <-.
Qed.

(** X9. When [toLowerCase] leaves a string it has lowered as it is, every
    header of the settings after registration is a string that
    [toLowerCase] leaves as it is. *)
Theorem headers_in_lowercase srv options calls p l :
  (∀ s, toLowerCase (toLowerCase s) = toLowerCase s) →
  register srv options calls = Next p →
  get (settings p) "headers" = VArr l →
  Forall (fun x => ∃ s, x = VStr s ∧ toLowerCase s = s) l.
Proof.
  intros Hidem Hreg Hh.
  destruct (register_Next _ _ _ _ Hreg)
    as (props0 & props1 & srv1 & _ & _ & Hl & Hauth & _).
  pose proof (internals_auth_get srv (VObj props1) calls "headers" ltac:(done)) as Hk.
  rewrite Hauth in Hk. cbn [fst snd] in Hk. rewrite Hk in Hh. clear Hk.
  unfold lowered in Hl.
  destruct (get (VObj props0) "headers") as [| |?|?|?|?|?|?|fields|?] eqn:Hh0;
    try (injection Hl as <-; by rewrite Hh0 in Hh).
  destruct (lower_fields fields) as [l'|] eqn:Hlow; [|done].
  cbn [fmap option_fmap option_map] in Hl. injection Hl as <-.
  cbn [get] in Hh. rewrite lookup_insert_eq in Hh. injection Hh as <-.
  by apply (lower_fields_lower fields).
Qed.

(** X10. The route of the endpoint takes its path, id and auth from the
    settings; it is internal, with method ['auth'], in direct mode only. *)
Theorem auth_route_shape srv options calls p mode :
  register srv options calls = Next p →
  get (get (settings p) "auth") "type" = VStr mode →
  ∃ r, routes (plugin_server p) = routes srv ++ [r]
       ∧ path r = get (get (settings p) "auth") "endpoint"
       ∧ id (config r) = get (get (settings p) "auth") "id"
       ∧ route_auth (config r) = get (get (settings p) "auth") "route"
       ∧ method r = (if String.eqb mode "direct" then "auth" else "GET")
       ∧ isInternal (config r) = String.eqb mode "direct".
Proof.
  intros Hreg Hmode.
  destruct (register_endpoint _ _ _ _ _ Hreg Hmode)
    as (settings0 & _ & _ & _ & _ & Hroutes & _).
  exists (auth_route (get (settings p) "auth")). split; [done|].
  unfold auth_route. simpl. by rewrite Hmode.
Qed.

End Registration.

(** ** The hooks, whatever the listeners do *)

Section HookDiscipline.

Variable closing : nat -> Listener -> Listener * close_outcome.

Lemma closed_in_turn_cons first err errs :
  closed_in_turn first (err :: errs)
  = ev_close first :: ev_next first err :: closed_in_turn (S first) errs.
Proof.
  unfold closed_in_turn. rewrite imap_cons. cbn [concat app].
  rewrite Nat.add_0_r. do 3 f_equal.
  apply imap_ext. intros i x _. simpl. by rewrite Nat.add_succ_r.
Qed.

(** The iteration of [onPreStop] from index [first]. *)
Lemma run_serial_shape count : ∀ first (ls : list Listener),
  first + count ≤ length ls →
  ∃ errs tail,
    (run closing
       (Items.serial (seq first count)
          (fun listener nextListener => _close listener nextListener) extNext)
       ls).1
    = closed_in_turn first errs ++ tail
    ∧ Forall (fun err => truthy err = false) errs
    ∧ ((tail = [ev_extNext VUndefined] ∧ length errs = count)
       ∨ (tail = [ev_close (first + length errs)] ∧ length errs < count)
       ∨ (∃ err, tail = [ev_close (first + length errs);
                         ev_next (first + length errs) err; ev_extNext err]
                 ∧ truthy err = true ∧ length errs < count)).
Proof.
  induction count as [|count IH]; intros first ls Hlen; simpl.
  - exists [], [ev_extNext VUndefined]. split; [done|]. split; [done|]. by left.
  - destruct (lookup_lt_is_Some_2 ls first ltac:(lia)) as [l Hl]. rewrite Hl.
    destruct (closing first l) as [l' [err|]]; simpl.
    2:{ exists [], [ev_close first]. split; [done|]. split; [done|].
        right. left. simpl. rewrite Nat.add_0_r. split; [done|lia]. }
    destruct (truthy err) eqn:Herr.
    { exists [], [ev_close first; ev_next first err; ev_extNext err].
      split; [done|]. split; [done|]. right. right. exists err.
      simpl. rewrite Nat.add_0_r. repeat split; [done|lia]. }
    destruct (IH (S first) (<[first:=l']> ls)) as (errs & tail & Hrun & Hfalsy & Htail).
    { rewrite length_insert. lia. }
    destruct (run closing _ (<[first:=l']> ls)) as [trace after]. simpl in *.
    exists (err :: errs), tail. rewrite closed_in_turn_cons, Hrun.
    split; [done|]. split; [by constructor|]. simpl.
    rewrite Nat.add_succ_r.
    destruct Htail as [[-> <-]|[[-> Hlt]|(e & -> & He & Hlt)]].
    + by left.
    + right. left. split; [done|lia].
    + right. right. exists e. repeat split; [done|lia].
Qed.

(** X11. Whatever the listeners do, [onPreStop] closes them in the order of
    the array, the next one when the one before has called [next] without an
    error, and then does one of three things: it calls [extNext()] after the
    last listener; it stops at a listener that never calls [next]; or it
    calls [extNext(err)] with the error a listener passed to [next], and
    closes no listener after that one. *)
Theorem onPreStop_shape (ls : list Listener) n :
  n ≤ length ls →
  ∃ errs tail,
    (run closing (onPreStop n) ls).1 = closed_in_turn 0 errs ++ tail
    ∧ Forall (fun err => truthy err = false) errs
    ∧ ((tail = [ev_extNext VUndefined] ∧ length errs = n)
       ∨ (tail = [ev_close (length errs)] ∧ length errs < n)
       ∨ (∃ err, tail = [ev_close (length errs);
                         ev_next (length errs) err; ev_extNext err]
                 ∧ truthy err = true ∧ length errs < n)).
Proof.
  intros Hn. apply (run_serial_shape n 0 ls). lia.
Qed.

(** X12. When the listener [j] is the first to pass an error to [next],
    [onPreStop] closes the listeners before it and [j] itself, hands the
    error to [extNext], and leaves the listeners after [j] as they were. *)
Theorem onPreStop_error_aborts (current : list Listener) j err :
  j < length current →
  (∀ i, i < j →
        ∃ e, outcome_at closing current i = calls_next e ∧ truthy e = false) →
  outcome_at closing current j = calls_next err →
  truthy err = true →
  ∃ after,
    run closing (onPreStop (length current)) current
    = (closes closing current 0 j
         ++ [ev_close j; ev_next j err; ev_extNext err], after)
    ∧ ∀ i, j < i → after !! i = current !! i.
Proof.
  intros Hj Hbefore Hout Herr.
  destruct (run_serial_error closing current j err (length current) 0 current)
    as (after & Hrun & Hafter); try done; try lia.
  - intros i Hi. apply Hbefore. lia.
  - exists after. by rewrite Nat.sub_0_r in Hrun.
Qed.

End HookDiscipline.

(** ** The handler, whatever the settings *)

Section Handler.

Context `{M : Modules}.

(** X13. In every mode and for every request the handler of the endpoint
    replies exactly once; it seals only for an authenticated request in a
    mode other than direct and cookie, and then the envelope of the request
    under the password of the settings; it sets a cookie only for an
    authenticated request in cookie mode. *)
Theorem auth_handler_replies_once cfg request :
  (∃ response, replies (auth_handler cfg request) = [response])
  ∧ (∀ object password options,
       Seal object password options ∈ auth_handler cfg request →
       isAuthenticated (auth request) = true
       ∧ strict_eq (get cfg "type") (VStr "direct") = false
       ∧ strict_eq (get cfg "type") (VStr "cookie") = false
       ∧ object = envelope request
       ∧ password = get cfg "password"
       ∧ options = seal_options cfg)
  ∧ (∀ name v,
       State name v ∈ auth_handler cfg request →
       isAuthenticated (auth request) = true
       ∧ strict_eq (get cfg "type") (VStr "cookie") = true
       ∧ name = get cfg "cookie"
       ∧ v = envelope request).
Proof.
  unfold auth_handler, envelope, seal_options.
  destruct (isAuthenticated (auth request)); cbn [negb].
  2:{ split; [by eexists|].
      split; intros *; rewrite list_elem_of_singleton; discriminate. }
  destruct (strict_eq (get cfg "type") (VStr "direct")).
  { split; [by eexists|].
    split; intros *; rewrite list_elem_of_singleton; discriminate. }
  destruct (strict_eq (get cfg "type") (VStr "cookie")).
  { split; [by eexists|].
    split; intros *; rewrite !elem_of_cons, elem_of_nil.
    - intros [|[|[]]]; discriminate.
    - intros [|[H|[]]]; [discriminate|]. by injection H as -> ->. }
  set (options := if truthy (get cfg "iron") then _ else _).
  destruct (Iron_seal _ _ options);
    (split; [by eexists|]);
    (split; intros *; rewrite !elem_of_cons, elem_of_nil;
       [intros [H|[|[]]]; [|discriminate]; by injection H as -> -> ->
       |intros [|[|[]]]; discriminate]).
Qed.

End Handler.

(** ** Options that are no object, and switches turned off *)

Section Switches.

Context `{M : Modules}.

(** X14. Options that are neither [true] nor an object make [register]
    throw: falsy ones leave no settings to validate, the others fail the
    assertion of [Hoek.applyToDefaults]. *)
Theorem options_must_be_object srv options calls :
  is_object_like options = false →
  options ≠ VBool true →
  register srv options calls
  = Throws (if truthy options
            then "Invalid options value: must be true, falsy or an object"
            else "Invalid nes configuration").
Proof.
  intros Hobj Htrue. unfold register, Hoek.applyToDefaults.
  destruct (truthy options) eqn:Ht; cbn [negb].
  - by destruct options as [| |[|]| | | | | | |].
  - reflexivity.
Qed.

Lemma lowered_insert props0 props1 k v :
  k ≠ "headers" →
  lowered (VObj props0) = Some (VObj props1) →
  lowered (VObj (<[k := v]> props0)) = Some (VObj (<[k := v]> props1)).
Proof.
  intros Hk. unfold lowered. cbn [get].
  rewrite lookup_insert_ne by done.
  destruct (default VUndefined (props0 !! "headers"));
    try (by intros [= <-]).
  destruct (lower_fields items) as [l|]; [|done].
  cbn. intros [= <-]. do 2 f_equal. by apply insert_insert_ne.
Qed.

Lemma applyToDefaults_insert_false oprops props0 k :
  Hoek.applyToDefaults internals.defaults (VObj oprops) = Some (VObj props0) →
  Hoek.applyToDefaults internals.defaults (VObj (<[k := VBool false]> oprops))
  = Some (VObj (<[k := VBool false]> props0)).
Proof.
  unfold Hoek.applyToDefaults, Hoek.clone, internals.defaults, obj.
  cbn [truthy negb Hoek.merge]. intros [= <-]. do 2 f_equal.
  symmetry. apply insert_merge_r.
  by destruct (list_to_map _ !! k).
Qed.

(** The settings stay valid when a switch is turned off. *)
Lemma settings_accept_false props0 k :
  k ∈ ["auth"; "heartbeat"; "maxConnections"] →
  Joi.assert (VObj props0) internals.schema = true →
  Joi.assert (VObj (<[k := VBool false]> props0)) internals.schema = true.
Proof.
  unfold Joi.assert. intros Hk H0.
  assert (H : is_Some (Joi.validate internals.schema VUndefined (VObj props0))).
  { destruct (Joi.validate internals.schema VUndefined (VObj props0)); [eauto|done]. }
  clear H0.
  cut (is_Some (Joi.validate internals.schema VUndefined
                  (VObj (<[k := VBool false]> props0)))).
  { by intros [? ->]. }
  destruct (schema_children_independent _ eq_refl) as [Hind Hnodup].
  unfold internals.schema, Joi.keys in *.
  apply keys_accept in H as [Hrun Hunk]. apply keys_accept. split.
  - apply (each_child_independent _ _ Hind Hnodup) in Hrun.
    apply (each_child_independent _ _ Hind Hnodup).
    repeat (apply Forall_cons in Hrun as [? Hrun]).
    rewrite !elem_of_cons, elem_of_nil in Hk.
    destruct Hk as [->|[->|[->|[]]]];
      repeat (apply Forall_cons; split); try apply Forall_nil;
      cbn [get fst snd] in *;
      rewrite ?lookup_insert_eq, ?lookup_insert_ne by done; try assumption.
    all: by eexists.
  - apply has_unknown_keys_insert; [|done].
    rewrite !elem_of_cons, elem_of_nil in Hk.
    destruct Hk as [->|[->|[->|[]]]]; by apply (bool_decide_unpack _).
Qed.

(** The endpoint settings [internals.auth] leaves depend on those it finds
    only. *)
Lemma internals_auth_agree srv props props' calls :
  props !! "auth" = props' !! "auth" →
  get (internals.auth srv (VObj props) calls).1.2 "auth"
  = get (internals.auth srv (VObj props') calls).1.2 "auth".
Proof.
  intros Hsame. unfold internals.auth. cbn [get]. rewrite Hsame.
  destruct (negb (truthy (default VUndefined (props' !! "auth")))).
  { cbn [fst snd get]. by rewrite Hsame. }
  destruct (negb _ && negb _); cbn -[lookup insert];
    by rewrite !lookup_insert_eq.
Qed.

(** X15. Options that register still register with [auth], [heartbeat] or
    [maxConnections] set to [false]; the settings then hold [false] there
    and are otherwise the same. *)
Theorem switch_off_accepted srv oprops calls p k :
  k ∈ ["auth"; "heartbeat"; "maxConnections"] →
  register srv (VObj oprops) calls = Next p →
  ∃ p', register srv (VObj (<[k := VBool false]> oprops)) calls = Next p'
        ∧ get (settings p') k = VBool false
        ∧ ∀ k', k' ≠ k → get (settings p') k' = get (settings p) k'.
Proof.
  intros Hk Hreg.
  destruct (register_Next _ _ _ _ Hreg)
    as (props0 & props1 & srv1 & Hd & Ha & Hl & Hauth & _).
  assert (Hkh : k ≠ "headers").
  { rewrite !elem_of_cons, elem_of_nil in Hk.
    by destruct Hk as [->|[->|[->|[]]]]. }
  destruct (register_accepts srv (VObj (<[k := VBool false]> oprops)) calls
              (VObj (<[k := VBool false]> props0))
              (VObj (<[k := VBool false]> props1)))
    as (p' & Hreg' & Hs').
  { by apply applyToDefaults_insert_false. }
  { by apply settings_accept_false. }
  { by apply lowered_insert. }
  assert (Hs : settings p = (internals.auth srv (VObj props1) calls).1.2)
    by (by rewrite Hauth).
  exists p'. split; [done|]. rewrite Hs, Hs'. split.
  - destruct (decide (k = "auth")) as [->|Hne].
    + unfold internals.auth. cbn [get]. rewrite lookup_insert_eq.
      cbn [default Datatypes.id truthy negb fst snd get].
      by rewrite lookup_insert_eq.
    + rewrite internals_auth_get by done. cbn [get].
      by rewrite lookup_insert_eq.
  - intros k' Hk'.
    destruct (decide (k' = "auth")) as [->|Hne].
    + apply internals_auth_agree. by rewrite lookup_insert_ne.
    + rewrite !internals_auth_get by done. cbn [get].
      by rewrite lookup_insert_ne.
Qed.

(** X16. A callback of the settings that is defined and is no function
    makes [register] throw. *)
Theorem callbacks_must_be_functions srv options calls settings0 k :
  Hoek.applyToDefaults internals.defaults options = Some settings0 →
  k ∈ ["onConnection"; "onDisconnection"; "onMessage"] →
  get settings0 k ≠ VUndefined →
  (∀ name, get settings0 k ≠ VFunc name) →
  register srv options calls = Throws "Invalid nes configuration".
Proof.
  intros Hd Hk Hdef Hfun.
  apply assert_false_throws with settings0; [done|].
  destruct (get_defined_is_obj settings0 k) as [props0 ->]; [done|].
  rewrite !elem_of_cons, elem_of_nil in Hk.
  destruct Hk as [->|[->|[->|[]]]];
    [apply (schema_child_rejects props0 _ 0 "onConnection" _ eq_refl eq_refl)
    |apply (schema_child_rejects props0 _ 1 "onDisconnection" _ eq_refl eq_refl)
    |apply (schema_child_rejects props0 _ 2 "onMessage" _ eq_refl eq_refl)];
    intros T;
    match goal with
    | |- Joi.validate _ _ ?v = None =>
        destruct v as [| |b|n|s|name|bytes|message|items|props] eqn:Hv
    end; try done; by destruct (Hfun name).
Qed.

End Switches.

(** * The properties on the concrete host *)

Lemma token_handshake_sealed_witness :
  register (M := sample_modules) sample_server token_options 0 = Next token_plugin
  ∧ get (get (settings token_plugin) "auth") "password"
    = VStr "0123456789abcdef0123456789abcdef"
  ∧ random_calls token_plugin = 1
  ∧ ∃ r, routes (plugin_server token_plugin) = [r]
         ∧ handler (config r) john
           = [Seal (envelope john) (VStr "0123456789abcdef0123456789abcdef")
                   (obj [("ttl", num 0)]);
              Reply (obj [("status", VStr "authenticated");
                          ("token", VStr "Fe26.2**0123456789abcdef0123456789abcdef")])].
Proof.
  assert (Hreg : register (M := sample_modules) sample_server token_options 0
                 = Next token_plugin) by (vm_compute; reflexivity).
  destruct (token_handshake_sealed (M := sample_modules)
              sample_server token_options 0 token_plugin john
              "Fe26.2**0123456789abcdef0123456789abcdef" Hreg)
    as [(r & Hroutes & _ & _ & Hhandler) (settings0 & Hd & Hpw & Hcalls)];
    [vm_compute; reflexivity..|].
  injection Hd as <-.
  split; [exact Hreg|]. do 2 (split; [vm_compute; reflexivity|]).
  exists r. split; [exact Hroutes|]. rewrite Hhandler. vm_compute. reflexivity.
Defined.

Lemma heartbeat_timeout_not_below_interval_rejected_witness :
  get (get slow_heartbeat_settings "heartbeat") "timeout" = num 20000
  ∧ get (get slow_heartbeat_settings "heartbeat") "interval" = num 15000
  ∧ Joi.assert (M := sample_modules) slow_heartbeat_settings internals.schema = false
  ∧ register (M := sample_modules) sample_server slow_heartbeat_options 0
    = Throws "Invalid nes configuration".
Proof.
  do 2 (split; [vm_compute; reflexivity|]).
  apply (heartbeat_timeout_not_below_interval_rejected (M := sample_modules)
           sample_server slow_heartbeat_options 0 slow_heartbeat_settings
           (inject_Z 20000) (inject_Z 15000));
    [vm_compute; reflexivity..|].
  unfold Qle. simpl. lia.
Defined.

Lemma maxConnectionsPerUser_requires_index_witness :
  register (M := sample_modules) sample_server limited_options 0
  = Throws "Invalid nes configuration"
  ∧ ∃ p', register (M := sample_modules) sample_server
            (with_maxConnectionsPerUser 3 indexed_options) 0 = Next p'
          ∧ get (get (settings p') "auth") "maxConnectionsPerUser" = VNum 3.
Proof.
  split.
  - apply (proj1 (maxConnectionsPerUser_requires_index (M := sample_modules)
                    sample_server limited_options 0 limited_settings
                    ltac:(vm_compute; reflexivity)) (num 2));
      [vm_compute; reflexivity..|discriminate].
  - apply (proj2 (maxConnectionsPerUser_requires_index (M := sample_modules)
                    sample_server indexed_options 0 indexed_settings
                    ltac:(vm_compute; reflexivity)) 3%Q indexed_plugin);
      [reflexivity|vm_compute; reflexivity..|].
    unfold Qle. simpl. lia.
Defined.

(** With index, the integer 2^53, which is at least 1, makes [register]
    throw where the integer test is [Number.isSafeInteger]. *)
Lemma maxConnectionsPerUser_requires_index_counterexample :
  register (M := sample_modules) sample_server indexed_options 0 = Next indexed_plugin
  ∧ get (get indexed_settings "auth") "index" = VBool true
  ∧ is_integral (inject_Z 9007199254740992) = true
  ∧ (1 <= inject_Z 9007199254740992)%Q
  ∧ register (M := sample_modules) sample_server
      (with_maxConnectionsPerUser (inject_Z 9007199254740992) indexed_options) 0
    = Throws "Invalid nes configuration".
Proof.
  split; [vm_compute; reflexivity|].
  split; [vm_compute; reflexivity|].
  split; [reflexivity|].
  split; [unfold Qle; simpl; lia|].
  vm_compute. reflexivity.
Defined.

Lemma direct_handshake_verbatim_witness :
  register (M := sample_modules) sample_server (obj []) 0 = Next direct_plugin
  ∧ (∃ r, routes (plugin_server direct_plugin) = [r]
          ∧ method r = "auth" ∧ isInternal (config r) = true
          ∧ handler (config r) john
            = [Reply (obj [("credentials", obj [("user", VStr "john")]);
                           ("artifacts", VUndefined)])])
  ∧ random_calls direct_plugin = 0
  ∧ states (plugin_server direct_plugin) = []
  ∧ get (get (settings direct_plugin) "auth") "password" = VUndefined.
Proof.
  assert (Hreg : register (M := sample_modules) sample_server (obj []) 0
                 = Next direct_plugin) by (vm_compute; reflexivity).
  destruct (direct_handshake_verbatim (M := sample_modules)
              sample_server (obj []) 0 direct_plugin john Hreg)
    as (Hroute & Hcalls & Hstates & settings0 & Hd & Hpw);
    [vm_compute; reflexivity..|].
  injection Hd as <-.
  split; [exact Hreg|]. split; [exact Hroute|]. split; [exact Hcalls|].
  split; [exact Hstates|]. rewrite Hpw. vm_compute. reflexivity.
Defined.

Lemma token_seal_failure_replied_witness :
  register (M := sample_modules) sample_server keyed_token_options 0
  = Next keyed_token_plugin
  ∧ ∃ r, routes (plugin_server keyed_token_plugin) = [r]
         ∧ handler (config r) john
           = [Seal (envelope john) (obj [("id", VStr "1"); ("secret", VStr "s")])
                   (obj [("ttl", num 0)]);
              Reply (VError "Invalid password")].
Proof.
  assert (Hreg : register (M := sample_modules) sample_server keyed_token_options 0
                 = Next keyed_token_plugin) by (vm_compute; reflexivity).
  destruct (token_seal_failure_replied (M := sample_modules)
              sample_server keyed_token_options 0 keyed_token_plugin john
              (VError "Invalid password") Hreg)
    as (r & Hroutes & Hhandler); [vm_compute; reflexivity..|].
  split; [exact Hreg|].
  exists r. split; [exact Hroutes|]. rewrite Hhandler. vm_compute. reflexivity.
Defined.

Lemma unauthenticated_reply_witness :
  register (M := sample_modules) sample_server cookie_options 0 = Next cookie_plugin
  ∧ ∃ r, routes (plugin_server cookie_plugin) = [r]
         ∧ handler (config r) anonymous
           = [Reply (obj [("status", VStr "unauthenticated")])].
Proof.
  assert (Hreg : register (M := sample_modules) sample_server cookie_options 0
                 = Next cookie_plugin) by (vm_compute; reflexivity).
  split; [exact Hreg|].
  apply (unauthenticated_reply (M := sample_modules)
           sample_server cookie_options 0 cookie_plugin "cookie" anonymous Hreg);
    [vm_compute; reflexivity|reflexivity].
Defined.

Lemma cookie_handshake_witness :
  register (M := sample_modules) sample_server cookie_options 0 = Next cookie_plugin
  ∧ states (plugin_server cookie_plugin)
    = [(VStr "nes",
        obj [("isSecure", VBool false);
             ("isHttpOnly", VBool true);
             ("path", VStr "/");
             ("domain", VUndefined);
             ("ttl", VUndefined);
             ("encoding", VStr "iron");
             ("password", VStr "0123456789abcdef0123456789abcdef");
             ("iron", VUndefined)])]
  ∧ ∃ r, routes (plugin_server cookie_plugin) = [r]
         ∧ handler (config r) john
           = [Reply (obj [("status", VStr "authenticated")]);
              State (VStr "nes")
                    (obj [("credentials", obj [("user", VStr "john")]);
                          ("artifacts", VUndefined)])].
Proof.
  assert (Hreg : register (M := sample_modules) sample_server cookie_options 0
                 = Next cookie_plugin) by (vm_compute; reflexivity).
  destruct (cookie_handshake (M := sample_modules)
              sample_server cookie_options 0 cookie_plugin john Hreg)
    as (Hstates & (r & Hroutes & Hhandler) & _);
    [vm_compute; reflexivity..|].
  split; [exact Hreg|]. split.
  - rewrite Hstates. vm_compute. reflexivity.
  - exists r. split; [exact Hroutes|]. rewrite Hhandler. vm_compute. reflexivity.
Defined.



Lemma onPreStart_clears_stopped_witness :
  register (M := sample_modules) sample_server (obj []) 0 = Next direct_plugin
  ∧ Forall (fun l => _stopped l = true) stopped_listeners
  ∧ ∃ start stop,
      exts (plugin_server direct_plugin) = [("onPreStart", start); ("onPreStop", stop)]
      ∧ (run prompt_close start stopped_listeners).1
               = [ev_assign_stopped 0 false; ev_assign_stopped 1 false;
                  ev_extNext VUndefined]
      ∧ Forall (fun l => _stopped l = false)
               (run prompt_close start stopped_listeners).2.
Proof.
  assert (Hreg : register (M := sample_modules) sample_server (obj []) 0
                 = Next direct_plugin) by (vm_compute; reflexivity).
  destruct (onPreStart_clears_stopped (M := sample_modules) prompt_close
              sample_server (obj []) 0 direct_plugin stopped_listeners Hreg)
    as (start & stop & Hexts & Hrun & Hclear & _).
  { vm_compute. reflexivity. }
  split; [exact Hreg|]. split.
  { apply Forall_forall. intros l Hin.
    apply list_elem_of_fmap in Hin as (l0 & -> & _). done. }
  exists start, stop. split; [exact Hexts|].
  split; [|exact Hclear]. rewrite Hrun. vm_compute. reflexivity.
Defined.

Lemma headers_lowercased_witness :
  register (M := sample_modules) sample_server header_options 0 = Next header_plugin
  ∧ get (settings header_plugin) "headers"
    = VArr [VStr "x-requested-with"; VStr "authorization"].
Proof.
  assert (Hreg : register (M := sample_modules) sample_server header_options 0
                 = Next header_plugin) by (vm_compute; reflexivity).
  split; [exact Hreg|].
  apply (proj1 (headers_lowercased (M := sample_modules)
                  sample_server header_options 0 header_plugin Hreg)
               ["X-Requested-With"; "Authorization"]).
  vm_compute. reflexivity.
Defined.

Lemma unknown_option_rejected_witness :
  register (M := sample_modules) sample_server verbose_options 0
  = Throws "Invalid nes configuration".
Proof.
  apply (unknown_option_rejected (M := sample_modules)
           sample_server verbose_options 0 "verbose" (VBool true));
    [vm_compute; reflexivity|reflexivity|discriminate
    |by apply (bool_decide_unpack _)].
Defined.

Lemma unknown_auth_option_rejected_witness :
  register (M := sample_modules) sample_server secret_options 0
  = Throws "Invalid nes configuration".
Proof.
  apply (unknown_auth_option_rejected (M := sample_modules)
           sample_server secret_options 0
           (list_to_map [("secret", VStr "s")]) "secret" (VStr "s"));
    [vm_compute; reflexivity|vm_compute; reflexivity|reflexivity|discriminate
    |by apply (bool_decide_unpack _)].
Defined.

Lemma auth_type_checked_witness :
  get (VObj basic_auth) "type" = VStr "basic"
  ∧ register (M := sample_modules) sample_server basic_options 0
    = Throws "Invalid nes configuration".
Proof.
  split; [vm_compute; reflexivity|].
  apply (auth_type_checked (M := sample_modules)
           sample_server basic_options 0 basic_settings basic_auth);
    [vm_compute; reflexivity|vm_compute; reflexivity|].
  intros mode Hmode Htype. vm_compute in Htype. injection Htype as <-.
  revert Hmode. by apply (bool_decide_unpack _).
Defined.

Lemma headers_must_be_names_witness :
  register (M := sample_modules) sample_server numbered_header_options 0
  = Throws "Invalid nes configuration".
Proof.
  apply (headers_must_be_names (M := sample_modules)
           sample_server numbered_header_options 0 [VStr "Accept"; num 1]);
    [vm_compute; reflexivity|right; reflexivity].
Defined.

Lemma limits_checked_witness :
  get crowded_settings "maxConnections" = num 0
  ∧ register (M := sample_modules) sample_server crowded_options 0
    = Throws "Invalid nes configuration".
Proof.
  split; [vm_compute; reflexivity|].
  apply (limits_checked (M := sample_modules)
           sample_server crowded_options 0 crowded_settings (inject_Z 0));
    [vm_compute; reflexivity|left; reflexivity|left; vm_compute; reflexivity].
Defined.

Lemma register_appends_witness :
  register (M := sample_modules) sample_server cookie_options 0 = Next cookie_plugin
  ∧ length (listeners cookie_plugin) = 2
  ∧ length (states (plugin_server cookie_plugin)) = 1
  ∧ length (routes (plugin_server cookie_plugin)) = 1
  ∧ exts (plugin_server cookie_plugin)
    = [("onPreStart", onPreStart 2); ("onPreStop", onPreStop 2)]
  ∧ random_calls cookie_plugin = 1.
Proof.
  assert (Hreg : register (M := sample_modules) sample_server cookie_options 0
                 = Next cookie_plugin) by (vm_compute; reflexivity).
  destruct (register_appends (M := sample_modules)
              sample_server cookie_options 0 cookie_plugin Hreg)
    as (_ & Hls & (new_states & new_routes & Hst & Hrt & _) & Hexts & _ & _).
  split; [exact Hreg|].
  split; [by rewrite Hls|].
  do 2 (split; [vm_compute; reflexivity|]).
  split; [exact Hexts|vm_compute; reflexivity].
Defined.

Lemma register_settings_frame_witness :
  register (M := sample_modules) sample_server token_options 0 = Next token_plugin
  ∧ get (get (settings token_plugin) "auth") "cookie" = VStr "nes"
  ∧ get (settings token_plugin) "maxConnections" = VBool false.
Proof.
  assert (Hreg : register (M := sample_modules) sample_server token_options 0
                 = Next token_plugin) by (vm_compute; reflexivity).
  destruct (register_settings_frame (M := sample_modules)
              sample_server token_options 0 token_plugin Hreg)
    as (settings0 & Hd & Htop & Hauth).
  split; [exact Hreg|]. split.
  - rewrite Hauth by done. vm_compute in Hd. injection Hd as <-.
    vm_compute. reflexivity.
  - rewrite Htop by done. vm_compute in Hd. injection Hd as <-.
    vm_compute. reflexivity.
Defined.

Lemma auth_disabled_registers_nothing_witness :
  register (M := sample_modules) sample_server open_options 0 = Next open_plugin
  ∧ routes (plugin_server open_plugin) = []
  ∧ states (plugin_server open_plugin) = []
  ∧ random_calls open_plugin = 0.
Proof.
  assert (Hreg : register (M := sample_modules) sample_server open_options 0
                 = Next open_plugin) by (vm_compute; reflexivity).
  split; [exact Hreg|].
  apply (auth_disabled_registers_nothing (M := sample_modules)
           sample_server open_options 0 open_plugin Hreg).
  vm_compute. reflexivity.
Defined.

Lemma headers_in_lowercase_witness :
  register (M := sample_modules) sample_server header_options 0 = Next header_plugin
  ∧ Forall (fun x => ∃ s, x = VStr s ∧ lower_letters s = s)
      [VStr "x-requested-with"; VStr "authorization"].
Proof.
  assert (Hreg : register (M := sample_modules) sample_server header_options 0
                 = Next header_plugin) by (vm_compute; reflexivity).
  split; [exact Hreg|].
  apply (headers_in_lowercase (M := sample_modules)
           sample_server header_options 0 header_plugin _
           lower_letters_idempotent Hreg).
  vm_compute. reflexivity.
Defined.

Lemma auth_route_shape_witness :
  register (M := sample_modules) sample_server token_options 0 = Next token_plugin
  ∧ ∃ r, routes (plugin_server token_plugin) = [r]
         ∧ path r = VStr "/nes/auth"
         ∧ id (config r) = VStr "nes.auth"
         ∧ route_auth (config r) = VUndefined
         ∧ method r = "GET"
         ∧ isInternal (config r) = false.
Proof.
  assert (Hreg : register (M := sample_modules) sample_server token_options 0
                 = Next token_plugin) by (vm_compute; reflexivity).
  split; [exact Hreg|].
  destruct (auth_route_shape (M := sample_modules)
              sample_server token_options 0 token_plugin "token" Hreg)
    as (r & Hroutes & Hpath & Hid & Hauth & Hmethod & Hinternal);
    [vm_compute; reflexivity|].
  exists r. split; [exact Hroutes|].
  rewrite Hpath, Hid, Hauth, Hmethod, Hinternal.
  repeat split; vm_compute; reflexivity.
Defined.

Lemma onPreStop_shape_witness :
  ∃ errs tail,
    (run failing_close (onPreStop 3) three_listeners).1
    = closed_in_turn 0 errs ++ tail
    ∧ Forall (fun err => truthy err = false) errs
    ∧ ((tail = [ev_extNext VUndefined] ∧ length errs = 3)
       ∨ (tail = [ev_close (length errs)] ∧ length errs < 3)
       ∨ (∃ err, tail = [ev_close (length errs);
                         ev_next (length errs) err; ev_extNext err]
                 ∧ truthy err = true ∧ length errs < 3)).
Proof.
  apply (onPreStop_shape failing_close three_listeners 3).
  vm_compute. lia.
Defined.

Lemma onPreStop_error_aborts_witness :
  ∃ after,
    run failing_close (onPreStop 3) three_listeners
    = ([ev_close 0; ev_next 0 VUndefined;
        ev_close 1; ev_next 1 (VError "close failed");
        ev_extNext (VError "close failed")], after)
    ∧ after !! 2 = three_listeners !! 2.
Proof.
  destruct (onPreStop_error_aborts failing_close
              three_listeners 1 (VError "close failed"))
    as (after & Hrun & Hafter).
  - vm_compute. lia.
  - intros i Hi. assert (i = 0) as -> by lia.
    exists VUndefined. split; vm_compute; reflexivity.
  - vm_compute. reflexivity.
  - reflexivity.
  - exists after. split; [exact Hrun|]. apply Hafter. lia.
Defined.

Lemma options_must_be_object_witness :
  register (M := sample_modules) sample_server (VStr "nes") 0
  = Throws "Invalid options value: must be true, falsy or an object"
  ∧ register (M := sample_modules) sample_server VNull 0
    = Throws "Invalid nes configuration".
Proof.
  split.
  - apply (options_must_be_object (M := sample_modules) sample_server (VStr "nes") 0);
      [reflexivity|discriminate].
  - apply (options_must_be_object (M := sample_modules) sample_server VNull 0);
      [reflexivity|discriminate].
Defined.

Lemma switch_off_accepted_witness :
  register (M := sample_modules) sample_server token_options 0 = Next token_plugin
  ∧ ∃ p', register (M := sample_modules) sample_server
            (VObj (<["heartbeat" := VBool false]>
                     (list_to_map [("auth", obj [("type", VStr "token");
                                                 ("endpoint", VStr "/nes/auth")])])))
            0 = Next p'
          ∧ get (settings p') "heartbeat" = VBool false
          ∧ get (settings p') "auth" = get (settings token_plugin) "auth".
Proof.
  assert (Hreg : register (M := sample_modules) sample_server token_options 0
                 = Next token_plugin) by (vm_compute; reflexivity).
  split; [exact Hreg|].
  destruct (switch_off_accepted (M := sample_modules) sample_server
              (list_to_map [("auth", obj [("type", VStr "token");
                                          ("endpoint", VStr "/nes/auth")])])
              0 token_plugin "heartbeat")
    as (p' & Hreg' & Hoff & Hsame).
  - by apply (bool_decide_unpack _).
  - exact Hreg.
  - exists p'. split; [exact Hreg'|]. split; [exact Hoff|]. by apply Hsame.
Defined.

Lemma callbacks_must_be_functions_witness :
  get logging_settings "onMessage" = VStr "log"
  ∧ register (M := sample_modules) sample_server logging_options 0
    = Throws "Invalid nes configuration".
Proof.
  split; [vm_compute; reflexivity|].
  apply (callbacks_must_be_functions (M := sample_modules)
           sample_server logging_options 0 logging_settings "onMessage").
  - vm_compute. reflexivity.
  - by apply (bool_decide_unpack _).
  - vm_compute. discriminate.
  - intros name. vm_compute. discriminate.
Defined.
